(** * script_app: the MXLIFF extraction / patching engine and the table matcher

    A shallow embedding of
      - [src/xml_parser.py]      ([XMLParser.parse_xml], [XMLParser.update_xml_content]),
      - [src/utils.py]           ([extract_order_value]),
      - [src/document_parser.py] ([DocumentParser._clean_text_for_comparison] and
                                  the last, active definition of
                                  [DocumentParser.match_content_with_mxliff]),
    together with the small part of Python's [str] and [re] these functions use.

    Part I holds the definitions, Part II the lemmas and theorems. *)

From Stdlib Require Import Ascii String.
From Stdlib Require Import NArith ZArith QArith Bool Arith Lia Lqa List.
From Stdlib Require Import Permutation Sorted.
Import ListNotations.
Close Scope Q_scope.

(* ================================================================== *)
(** * Part I.  Definitions                                             *)
(* ================================================================== *)

(** ** Python strings

    A Python [str] is a sequence of Unicode code points. *)

Module Py.

Definition str := list N.

(** A literal whose characters are all ASCII. *)
Fixpoint py (s : string) : str :=
  match s with
  | EmptyString => []
  | String a s' => N_of_ascii a :: py s'
  end.
Arguments py s%_string.

Fixpoint eqb (a b : str) : bool :=
  match a, b with
  | [], [] => true
  | x :: a', y :: b' => (x =? y)%N && eqb a' b'
  | _, _ => false
  end.

(** [bool(s)]: a string is true when it is not empty. *)
Definition truthy (s : str) : bool :=
  match s with [] => false | _ :: _ => true end.

(** [str.isspace] on one character, which is also the class [\s] of [re] on
    [str] patterns: the characters of bidirectional type WS, B or S and of
    category Zs. *)
Definition is_space (c : N) : bool :=
  ((9 <=? c) && (c <=? 13) || (28 <=? c) && (c <=? 32)
   || (c =? 133) || (c =? 160) || (c =? 5760)
   || (8192 <=? c) && (c <=? 8202)
   || (c =? 8232) || (c =? 8233) || (c =? 8239) || (c =? 8287)
   || (c =? 12288))%N.

Fixpoint lstrip (s : str) : str :=
  match s with
  | [] => []
  | c :: s' => if is_space c then lstrip s' else s
  end.

Fixpoint rstrip (s : str) : str :=
  match s with
  | [] => []
  | c :: s' =>
      match rstrip s' with
      | [] => if is_space c then [] else [c]
      | r => c :: r
      end
  end.

(** [s.strip()] *)
Definition strip (s : str) : str := rstrip (lstrip s).

Fixpoint startswith (p s : str) : bool :=
  match p, s with
  | [], _ => true
  | x :: p', y :: s' => (x =? y)%N && startswith p' s'
  | _ :: _, [] => false
  end.

(** [sub in s] *)
Fixpoint contains (sub s : str) : bool :=
  startswith sub s ||
  match s with
  | [] => false
  | _ :: s' => contains sub s'
  end.

(** [s.replace(old, new)] for a non-empty [old]: every occurrence, left to
    right, without overlap.  [skip] counts the characters of an occurrence
    that are still to be dropped. *)
Fixpoint replace_go (old new : str) (skip : nat) (s : str) : str :=
  match s with
  | [] => []
  | c :: s' =>
      match skip with
      | S k => replace_go old new k s'
      | O =>
          if startswith old s
          then new ++ replace_go old new (length old - 1) s'
          else c :: replace_go old new 0 s'
      end
  end.

(** [s.replace(old, new)]; an empty [old] matches between all characters. *)
Definition replace (s old new : str) : str :=
  match old with
  | [] => new ++ flat_map (fun c => c :: new) s
  | _ :: _ => replace_go old new 0 s
  end.

Definition digit_char (d : N) : N := (48 + d)%N.

Fixpoint uint_str (d : Decimal.uint) : str :=
  match d with
  | Decimal.Nil => []
  | Decimal.D0 d' => digit_char 0 :: uint_str d'
  | Decimal.D1 d' => digit_char 1 :: uint_str d'
  | Decimal.D2 d' => digit_char 2 :: uint_str d'
  | Decimal.D3 d' => digit_char 3 :: uint_str d'
  | Decimal.D4 d' => digit_char 4 :: uint_str d'
  | Decimal.D5 d' => digit_char 5 :: uint_str d'
  | Decimal.D6 d' => digit_char 6 :: uint_str d'
  | Decimal.D7 d' => digit_char 7 :: uint_str d'
  | Decimal.D8 d' => digit_char 8 :: uint_str d'
  | Decimal.D9 d' => digit_char 9 :: uint_str d'
  end.

(** [str(n)] for a non-negative integer. *)
Definition str_of_N (n : N) : str :=
  match n with
  | 0%N => [digit_char 0]
  | _ => uint_str (N.to_uint n)
  end.

Definition str_of_nat (n : nat) : str := str_of_N (N.of_nat n).

(** *** Dictionaries

    A [dict] keeps its keys in insertion order; assigning to a key that is
    already present keeps the key's place. *)
Definition dict (V : Type) := list (str * V).

Fixpoint dict_get {V} (d : dict V) (k : str) : option V :=
  match d with
  | [] => None
  | (k', v) :: d' => if eqb k' k then Some v else dict_get d' k
  end.

Definition dict_mem {V} (d : dict V) (k : str) : bool :=
  match dict_get d k with Some _ => true | None => false end.

Fixpoint dict_set {V} (d : dict V) (k : str) (v : V) : dict V :=
  match d with
  | [] => [(k, v)]
  | (k', v') :: d' =>
      if eqb k' k then (k', v) :: d' else (k', v') :: dict_set d' k v
  end.

(** A [set] of strings.  Python leaves the iteration order of a set
    unspecified; the model iterates in insertion order. *)
Definition set_mem (s : list str) (k : str) : bool := existsb (eqb k) s.

Definition set_add (s : list str) (k : str) : list str :=
  if set_mem s k then s else s ++ [k].


(** [s.find(sub)]: the lowest index at which [sub] starts in [s], or -1. *)
Fixpoint str_find (sub s : str) : Z :=
  if startswith sub s then 0%Z
  else
    match s with
    | [] => (-1)%Z
    | _ :: s' =>
        let i := str_find sub s' in
        if (i <? 0)%Z then (-1)%Z else (i + 1)%Z
    end.

(** [s.rfind(sub)]: the highest index at which [sub] starts in [s], or -1. *)
Fixpoint str_rfind (sub s : str) : Z :=
  match s with
  | [] => if startswith sub [] then 0%Z else (-1)%Z
  | _ :: s' =>
      let i := str_rfind sub s' in
      if (0 <=? i)%Z then (i + 1)%Z
      else if startswith sub s then 0%Z else (-1)%Z
  end.

(** [s[:i]] for an index that is not negative. *)
Definition upto (s : str) (i : Z) : str := firstn (Z.to_nat i) s.

(** [str(n)] for an integer. *)
Definition str_of_Z (n : Z) : str :=
  match n with
  | Z0 => [digit_char 0]
  | Zpos p => str_of_N (Npos p)
  | Zneg p => 45%N :: str_of_N (Npos p)
  end.

End Py.

Import Py.

(** ** The parts of the Python runtime that are tables or libraries

    [str.lower] and the class [\d] rest on the Unicode character database,
    [int] on the interpreter's limit for the digits of a literal,
    [difflib.SequenceMatcher.ratio] is library code and [id] is the address
    of an object.  The program is modelled over any such runtime.

    The program does no arithmetic on floats; it compares the ratios with
    one another and with the literal [0.8].  A ratio is modelled by the
    exact quotient 2*M/T that [ratio()] rounds to a float, and [0.8] by
    4/5: the rounding is monotone and 4/5 rounds to the float [0.8], so
    the comparisons of the floats are those of the quotients, for every T
    below 2^50. *)
Class Runtime := {
  (** [s.lower()] *)
  str_lower : str -> str;
  (** membership in the class [\d] *)
  is_decimal : N -> bool;
  (** [int(s)] on a match of [\d+]; [None] when it raises [ValueError] *)
  int_of_digits : str -> option Z;
  (** [SequenceMatcher(None, a, b).ratio()], as the exact quotient *)
  sequence_ratio : str -> str -> Q;
  (** [id(x)] for [x] the [i]-th element of the [l]-th list of strings a
      function builds *)
  object_id : nat -> nat -> N
}.

(** ** Regular expressions

    The patterns of this program are sequences of literal characters,
    character classes, repetitions of one character class (greedy or not)
    and groups that do not nest; [re.DOTALL] only changes the class that a
    dot stands for.  The matcher backtracks in the order Python's does. *)

Module Re.

Inductive atom :=
| Chr (c : N)                                     (* a literal character *)
| Cls (p : N -> bool)                             (* one character of a class *)
| Rep (p : N -> bool) (lo : nat) (greedy : bool)  (* at least [lo] characters of a class *)
| Open                                            (* a group opens *)
| Close.                                          (* a group closes *)

Definition regex := list atom.

(** The end of a match and the positions of its parentheses, in the order
    of the pattern. *)
Definition result := (nat * list nat)%type.

Fixpoint rep (p : N -> bool) (lo : nat) (greedy : bool)
    (k : str -> nat -> option result) (s : str) (pos : nat) {struct s}
    : option result :=
  match lo with
  | S lo' =>
      match s with
      | x :: s' => if p x then rep p lo' greedy k s' (S pos) else None
      | [] => None
      end
  | O =>
      if greedy then
        match s with
        | x :: s' =>
            if p x then
              match rep p 0 greedy k s' (S pos) with
              | Some r => Some r
              | None => k s pos
              end
            else k s pos
        | [] => k s pos
        end
      else
        match k s pos with
        | Some r => Some r
        | None =>
            match s with
            | x :: s' => if p x then rep p 0 greedy k s' (S pos) else None
            | [] => None
            end
        end
  end.

(** [run r s pos]: match [r] at the head of [s], which stands at offset
    [pos] of the text. *)
Fixpoint run (r : regex) (s : str) (pos : nat) {struct r} : option result :=
  match r with
  | [] => Some (pos, [])
  | Chr c :: r' =>
      match s with
      | x :: s' => if (x =? c)%N then run r' s' (S pos) else None
      | [] => None
      end
  | Cls p :: r' =>
      match s with
      | x :: s' => if p x then run r' s' (S pos) else None
      | [] => None
      end
  | Rep p lo greedy :: r' => rep p lo greedy (run r') s pos
  | Open :: r' | Close :: r' =>
      match run r' s pos with
      | Some (e, marks) => Some (e, pos :: marks)
      | None => None
      end
  end.

Definition slice (s : str) (a b : nat) : str := firstn (b - a) (skipn a s).

Fixpoint groups_of (s : str) (marks : list nat) : list str :=
  match marks with
  | a :: b :: marks' => slice s a b :: groups_of s marks'
  | _ => []
  end.

(** A match object: [group(0)] and the numbered groups. *)
Record Match := { whole : str; groups : list str }.

(** [m.group(i)] *)
Definition group (m : Match) (i : nat) : str :=
  match i with
  | O => whole m
  | S j => nth j (groups m) []
  end.

Definition mk_match (s : str) (res : result) : Match :=
  {| whole := firstn (fst res) s; groups := groups_of s (snd res) |}.

(** [re.search(r, s)] *)
Fixpoint search (r : regex) (s : str) : option Match :=
  match run r s 0 with
  | Some res => Some (mk_match s res)
  | None =>
      match s with
      | [] => None
      | _ :: s' => search r s'
      end
  end.

(** All matches, left to right, without overlap.  Every pattern this
    program passes to [findall] or [sub] starts with a character that the
    match consumes, so a match is never empty and the special rule of [re]
    for empty matches has no part. *)
Fixpoint finditer_go (r : regex) (skip : nat) (s : str) : list Match :=
  match s with
  | [] => []
  | _ :: s' =>
      match skip with
      | S k => finditer_go r k s'
      | O =>
          match run r s 0 with
          | Some (S n, marks) => mk_match s (S n, marks) :: finditer_go r n s'
          | _ => finditer_go r 0 s'
          end
      end
  end.

Definition count_groups (r : regex) : nat :=
  length (filter (fun a => match a with Open => true | _ => false end) r).

(** [re.findall(r, s)] for a pattern with at most one group: the list of
    the matches' texts, or of their group 1 when the pattern has a group. *)
Definition findall (r : regex) (s : str) : list str :=
  map (fun m => group m (count_groups r)) (finditer_go r 0 s).

(** [re.sub(r, repl, s)] with a function [repl] of the match. *)
Fixpoint sub_go (r : regex) (repl : Match -> str) (skip : nat) (s : str) : str :=
  match s with
  | [] => []
  | c :: s' =>
      match skip with
      | S k => sub_go r repl k s'
      | O =>
          match run r s 0 with
          | Some (S n, marks) => repl (mk_match s (S n, marks)) ++ sub_go r repl n s'
          | _ => c :: sub_go r repl 0 s'
          end
      end
  end.

Definition sub (r : regex) (repl : Match -> str) (s : str) : str :=
  sub_go r repl 0 s.

(** *** Pattern syntax *)

Definition lit (s : string) : regex := map Chr (py s).
Arguments lit s%_string.

Definition any (_ : N) : bool := true.                 (* . under re.DOTALL *)
Definition is_not (c : N) (x : N) : bool := negb (x =? c)%N.
Definition not_gt : N -> bool := is_not 62.             (* any but > *)
Definition not_dquote : N -> bool := is_not 34.         (* any but the double quote *)
Definition not_nl : N -> bool := is_not 10.             (* any but the newline *)
Definition not_comma_nl (x : N) : bool :=               (* any but comma and newline *)
  negb (x =? 44)%N && negb (x =? 10)%N.
(** One letter under [re.IGNORECASE]: the letter in either case. *)
Definition letter_ci (lower upper : N) (x : N) : bool :=
  (x =? lower)%N || (x =? upper)%N.


(** *** Alternation

    [re.search] of a pattern [(r1|r2|...)] that is one group of
    alternatives: at each position, the first alternative that matches. *)
Fixpoint first_alternative (alts : list regex) (s : str) : option Match :=
  match alts with
  | [] => None
  | r :: rest =>
      match run r s 0 with
      | Some res => Some {| whole := firstn (fst res) s; groups := [firstn (fst res) s] |}
      | None => first_alternative rest s
      end
  end.

Fixpoint search_alternatives (alts : list regex) (s : str) : option Match :=
  match first_alternative alts s with
  | Some m => Some m
  | None =>
      match s with
      | [] => None
      | _ :: s' => search_alternatives alts s'
      end
  end.

End Re.

(** ** Exceptions *)

Inductive exn := ValueError (msg : str).

Inductive outcome (A : Type) :=
| Return (a : A)
| Raise (e : exn).
Arguments Return {A} a.
Arguments Raise {A} e.

(** ** src/utils.py *)

Module Utils.
Section WithRuntime.
Context {rt : Runtime}.

(** [r'Order:\s*(\d+)'] under [re.IGNORECASE]; none of the letters of
    the word has a case variant outside ASCII. *)
Definition order_pattern : Re.regex :=
  [Re.Cls (Re.letter_ci 111 79); Re.Cls (Re.letter_ci 114 82);
   Re.Cls (Re.letter_ci 100 68); Re.Cls (Re.letter_ci 101 69);
   Re.Cls (Re.letter_ci 114 82); Re.Chr 58;
   Re.Rep is_space 0 true; Re.Open; Re.Rep is_decimal 1 true; Re.Close].

Definition extract_order_value (note_text : str) : outcome Z :=
  if negb (truthy note_text) then Return 9999%Z
  else
    match Re.search order_pattern note_text with
    | Some order_match =>
        match int_of_digits (Re.group order_match 1) with
        | Some n => Return n
        | None => Raise (ValueError (py "Exceeds the limit for integer string conversion"))
        end
    | None => Return 9999%Z
    end.

End WithRuntime.
End Utils.

(** ** src/xml_parser.py *)

Module XMLParser.

(** One element of [processed_data], as [parse_xml] builds it. *)
Record record := {
  index : nat;
  group_id : str;
  trans_id : str;
  source_text : str;
  target_text : str;
  original_target_text : str;
  key : str;
  speaker : str;
  speaker_target : str;
  speaker_gender : str;
  player_class : str;
  player_gender : str;
  order_value : Z;
  note_text : str;
  is_menulabel : bool
}.

(** An element of the list the main window hands to [update_xml_content]
    and to the matcher: a header of a display group, or a row that carries
    an item.  The main window always sets ['is_header']. *)
Record entry := {
  is_header : bool;
  item : option record
}.

(** *** The patterns

    In the comments, a double quote inside a Python pattern is written
    [\x22], and a pattern is cut in two literals where a star meets a
    closing parenthesis. *)

Definition dq : Re.regex := [Re.Chr 34].
Definition gt : Re.regex := [Re.Chr 62].
Definition open_tag_rest : Re.regex := [Re.Rep Re.not_gt 0 true; Re.Chr 62].
Definition lazy_any : Re.regex := [Re.Rep Re.any 0 false].
Definition captured (r : Re.regex) : Re.regex := Re.Open :: r ++ [Re.Close].

(** [r'<group[^>]*>.*?</group>'] *)
Definition group_pattern : Re.regex :=
  Re.lit "<group" ++ open_tag_rest ++ lazy_any ++ Re.lit "</group>".

(** [r'<group\s+id=\x22([^\x22]*' r')\x22'] *)
Definition group_id_pattern : Re.regex :=
  Re.lit "<group" ++ [Re.Rep is_space 1 true] ++ Re.lit "id=" ++
  dq ++ captured [Re.Rep Re.not_dquote 0 true] ++ dq.

(** [r'<context-group[^>]*>(.*?)</context-group>'] *)
Definition context_group_pattern : Re.regex :=
  Re.lit "<context-group" ++ open_tag_rest ++ captured lazy_any ++
  Re.lit "</context-group>".

(** [r'<context\s+context-type=\x22x-key\x22[^>]*>(.*?)</context>'] *)
Definition key_pattern : Re.regex :=
  Re.lit "<context" ++ [Re.Rep is_space 1 true] ++ Re.lit "context-type=" ++
  dq ++ Re.lit "x-key" ++ dq ++ open_tag_rest ++ captured lazy_any ++
  Re.lit "</context>".

(** [r'<context\s+context-type=\x22x-key-note\x22[^>]*>(.*?)</context>'] *)
Definition note_pattern : Re.regex :=
  Re.lit "<context" ++ [Re.Rep is_space 1 true] ++ Re.lit "context-type=" ++
  dq ++ Re.lit "x-key-note" ++ dq ++ open_tag_rest ++ captured lazy_any ++
  Re.lit "</context>".

(** [r'<trans-unit[^>]*>.*?</trans-unit>'] *)
Definition trans_unit_pattern : Re.regex :=
  Re.lit "<trans-unit" ++ open_tag_rest ++ lazy_any ++ Re.lit "</trans-unit>".

(** [r'<source[^>]*>(.*?)</source>'] *)
Definition source_pattern : Re.regex :=
  Re.lit "<source" ++ open_tag_rest ++ captured lazy_any ++ Re.lit "</source>".

(** [r'<target[^>]*>(.*?)</target>'] *)
Definition target_pattern : Re.regex :=
  Re.lit "<target" ++ open_tag_rest ++ captured lazy_any ++ Re.lit "</target>".

(** [r'<trans-unit\s+id=\x22([^\x22]*' r')\x22'] *)
Definition trans_id_pattern : Re.regex :=
  Re.lit "<trans-unit" ++ [Re.Rep is_space 1 true] ++ Re.lit "id=" ++
  dq ++ captured [Re.Rep Re.not_dquote 0 true] ++ dq.

(** [label + r'\s*([^\n]+)'], as in [r'Speaker:\s*([^\n]+)'] *)
Definition line_pattern (label : string) : Re.regex :=
  Re.lit label ++ [Re.Rep is_space 0 true] ++ captured [Re.Rep Re.not_nl 1 true].
Arguments line_pattern label%_string.

(** [label + r'\s*([^,\n]+)'], as in [r'Gender:\s*([^,\n]+)'] *)
Definition field_pattern (label : string) : Re.regex :=
  Re.lit label ++ [Re.Rep is_space 0 true] ++
  captured [Re.Rep Re.not_comma_nl 1 true].
Arguments field_pattern label%_string.

(** [m.group(1).strip() if m else default] *)
Definition group1_or (m : option Re.Match) (default : str) : str :=
  match m with
  | Some m => strip (Re.group m 1)
  | None => default
  end.

Section WithRuntime.
Context {rt : Runtime}.

(** *** parse_xml *)

(** The defaults of a group (lines 31-50): the key and the key note of
    the first context-group block in the text of the group, wherever the
    block is; empty without a block or without the field. *)
Definition group_context (grp : str) : str * str :=
  match Re.search context_group_pattern grp with
  | Some context_group_match =>
      let context_group_content := Re.group context_group_match 1 in
      (group1_or (Re.search key_pattern context_group_content) [],
       group1_or (Re.search note_pattern context_group_content) [])
  | None => ([], [])
  end.

(** The key and note of one trans-unit (lines 77-96). *)
Definition unit_context (group_key group_note_text trans_unit : str) : str * str :=
  match Re.search context_group_pattern trans_unit with
  | Some unit_context_group_match =>
      let unit_context_content := Re.group unit_context_group_match 1 in
      (group1_or (Re.search key_pattern unit_context_content) group_key,
       group1_or (Re.search note_pattern unit_context_content) group_note_text)
  | None => (group_key, group_note_text)
  end.

(** The body of the loop over the trans-units of a group (lines 62-156):
    the record appended to a [processed_data] of length [n], or the
    exception raised on the way. *)
Definition unit_record (group_id group_key group_note_text : str)
    (trans_idx : nat) (trans_unit : str) (n : nat) : outcome record :=
  let source_text := group1_or (Re.search source_pattern trans_unit) [] in
  let target_text := group1_or (Re.search target_pattern trans_unit) [] in
  let trans_id :=
    match Re.search trans_id_pattern trans_unit with
    | Some trans_id_match => Re.group trans_id_match 1
    | None => py "trans_" ++ str_of_nat trans_idx
    end in
  let '(unit_key, unit_note_text) :=
    unit_context group_key group_note_text trans_unit in
  let mk speaker speaker_target speaker_gender player_class player_gender order_value :=
    {| index := n;
       group_id := group_id;
       trans_id := trans_id;
       source_text := source_text;
       target_text := target_text;
       original_target_text := target_text;
       key := unit_key;
       speaker := speaker;
       speaker_target := speaker_target;
       speaker_gender := speaker_gender;
       player_class := player_class;
       player_gender := player_gender;
       order_value := order_value;
       note_text := unit_note_text;
       is_menulabel := contains (py "MenuLabel") unit_key |} in
  if truthy unit_note_text then
    let speaker := group1_or (Re.search (line_pattern "Speaker:") unit_note_text) [] in
    let speaker_target := group1_or (Re.search (line_pattern "Target:") unit_note_text) [] in
    let speaker_gender := group1_or (Re.search (line_pattern "Speaker Gender:") unit_note_text) [] in
    let player_class := group1_or (Re.search (line_pattern "Class:") unit_note_text) [] in
    let player_gender := group1_or (Re.search (line_pattern "Player Gender:") unit_note_text) [] in
    let speaker_gender :=
      if negb (truthy speaker_gender)
      then group1_or (Re.search (field_pattern "Gender:") unit_note_text) speaker_gender
      else speaker_gender in
    let speaker_target :=
      match Re.search (field_pattern "speaking to:") unit_note_text with
      | Some speaking_to_match =>
          if negb (truthy speaker_target)
          then strip (Re.group speaking_to_match 1)
          else speaker_target
      | None => speaker_target
      end in
    match Utils.extract_order_value unit_note_text with
    | Return order_value =>
        Return (mk speaker speaker_target speaker_gender player_class player_gender order_value)
    | Raise e => Raise e
    end
  else Return (mk [] [] [] [] [] 9999%Z).

(** The loop over the trans-units of one group.  [processed_data] is
    appended to in place, so what was appended before an exception stays. *)
Fixpoint units_loop (group_id group_key group_note_text : str)
    (trans_units : list str) (trans_idx : nat) (processed_data : list record)
    : list record * option exn :=
  match trans_units with
  | [] => (processed_data, None)
  | trans_unit :: rest =>
      match unit_record group_id group_key group_note_text trans_idx trans_unit
              (List.length processed_data) with
      | Return r =>
          units_loop group_id group_key group_note_text rest (S trans_idx)
            (processed_data ++ [r])
      | Raise e => (processed_data, Some e)
      end
  end.

(** The body of the [try] (lines 27-156) for the group of index [group_idx]. *)
Definition process_group (group_idx : nat) (grp : str) (processed_data : list record)
    : list record * option exn :=
  let group_id :=
    match Re.search group_id_pattern grp with
    | Some group_id_match => Re.group group_id_match 1
    | None => py "group_" ++ str_of_nat group_idx
    end in
  let '(group_key, group_note_text) := group_context grp in
  let trans_units := Re.findall trans_unit_pattern grp in
  units_loop group_id group_key group_note_text trans_units 0 processed_data.

(** The loop over the groups: [except Exception] only logs. *)
Fixpoint groups_loop (groups : list str) (group_idx : nat)
    (processed_data : list record) : list record :=
  match groups with
  | [] => processed_data
  | grp :: rest =>
      groups_loop rest (S group_idx) (fst (process_group group_idx grp processed_data))
  end.

(** [XMLParser.parse_xml(xml_content)], without a logger. *)
Definition parse_xml (xml_content : str) : list record :=
  let groups := Re.findall group_pattern xml_content in
  groups_loop groups 0 [].


(** *** update_xml_content *)

(** A value of [edited_translations]. *)
Record edit := { new : str; original : str }.

(** The loop that fills [key_to_translation] and [edited_translations]
    (lines 184-198). *)
Definition collect (acc : dict str * dict edit) (data : entry)
    : dict str * dict edit :=
  let '(key_to_translation, edited_translations) := acc in
  if negb (is_header data) then
    match item data with
    | Some it =>
        let k := key it in
        if truthy k then
          let target := target_text it in
          let original_text := original_target_text it in
          let key_to_translation := dict_set key_to_translation k target in
          if negb (eqb target original_text)
          then (key_to_translation,
                dict_set edited_translations k {| new := target; original := original_text |})
          else (key_to_translation, edited_translations)
        else acc
    | None => acc
    end
  else acc.

(** [r'(<trans-unit[^>]*>.*?</trans-unit>)'] *)
Definition trans_unit_pattern_g : Re.regex := captured trans_unit_pattern.

(** [r'(<group[^>]*>.*?</group>)'] *)
Definition group_pattern_g : Re.regex := captured group_pattern.

(** [r'(<target[^>]*>)(.*?)(</target>)'] *)
Definition target_parts_pattern : Re.regex :=
  captured (Re.lit "<target" ++ open_tag_rest) ++ captured lazy_any ++
  captured (Re.lit "</target>").

(** [r'<trans-unit[^>]*key=\x22([^\x22]*' r')\x22'] *)
Definition key_attr_pattern : Re.regex :=
  Re.lit "<trans-unit" ++ [Re.Rep Re.not_gt 0 true] ++ Re.lit "key=" ++
  dq ++ captured [Re.Rep Re.not_dquote 0 true] ++ dq.

(** [r'<trans-unit[^>]*id=\x22([^\x22]*' r')\x22'] *)
Definition id_attr_pattern : Re.regex :=
  Re.lit "<trans-unit" ++ [Re.Rep Re.not_gt 0 true] ++ Re.lit "id=" ++
  dq ++ captured [Re.Rep Re.not_dquote 0 true] ++ dq.

(** [r'<!-- XMLUPDATE_[^>]*-->'] *)
Definition marker_pattern : Re.regex :=
  Re.lit "<!-- XMLUPDATE_" ++ [Re.Rep Re.not_gt 0 true] ++ Re.lit "-->".

(** [bool(key)] for a key that may be [None]. *)
Definition key_truthy (k : option str) : bool :=
  match k with Some k => truthy k | None => false end.

(** The key in the trans-unit's own context-group (lines 229-238 and
    295-302); [None] when there is none. *)
Definition own_key (trans_unit : str) : option str :=
  match Re.search context_group_pattern trans_unit with
  | Some context_group_match =>
      let context_content := Re.group context_group_match 1 in
      match Re.search key_pattern context_content with
      | Some key_match => Some (strip (Re.group key_match 1))
      | None => None
      end
  | None => None
  end.

(** The trans-unit with the text of its target element replaced
    (lines 243-252 and 336-345); [None] when it has no target element. *)
Definition retarget (trans_unit new_text : str) : option str :=
  match Re.search target_parts_pattern trans_unit with
  | Some target_match =>
      Some (replace trans_unit (Re.group target_match 0)
              (Re.group target_match 1 ++ new_text ++ Re.group target_match 3))
  | None => None
  end.

(** [f'<!-- XMLUPDATE_{tag}_{id} -->'] *)
Definition marker (tag : string) (id : N) : str :=
  py "<!-- XMLUPDATE_" ++ py tag ++ py "_" ++ str_of_N id ++ py " -->".
Arguments marker tag%_string id.

(** Replace the block [old] of [xml] by [updated] between two markers
    (lines 256-265 and 357-366). *)
Definition replace_marked (xml old updated marker_start marker_end : str) : str :=
  let marked_original := marker_start ++ old ++ marker_end in
  let marked_updated := marker_start ++ updated ++ marker_end in
  replace (replace xml old marked_original) marked_original marked_updated.

(** The first approach (lines 227-268): the loop over all trans-units. *)
Fixpoint first_pass (edited_translations : dict edit) (trans_units : list str)
    (i : nat) (st : str * list str) : str * list str :=
  match trans_units with
  | [] => st
  | trans_unit :: rest =>
      let '(updated_xml, updated_keys) := st in
      let k := own_key trans_unit in
      let st' :=
        if key_truthy k then
          match k with
          | Some k =>
              match dict_get edited_translations k with
              | Some e =>
                  match retarget trans_unit (new e) with
                  | Some updated_trans_unit =>
                      (replace_marked updated_xml trans_unit updated_trans_unit
                         (marker "START" (object_id 0 i)) (marker "END" (object_id 0 i)),
                       set_add updated_keys k)
                  | None => st
                  end
              | None => st
              end
          | None => st
          end
        else st in
      first_pass edited_translations rest (S i) st'
  end.

(** The key of a trans-unit in the second approach (lines 291-331). *)
Definition second_key (missing_keys : list str) (grp trans_unit : str) : option str :=
  (* Pattern 1: direct context-group in the trans-unit *)
  let k := own_key trans_unit in
  (* Pattern 2: key in the attributes of the trans-unit *)
  let k :=
    if negb (key_truthy k) then
      match Re.search key_attr_pattern trans_unit with
      | Some key_attr_match => Some (strip (Re.group key_attr_match 1))
      | None => k
      end
    else k in
  (* Pattern 3: key in the group context and trans-unit id match *)
  if negb (key_truthy k) then
    match Re.search context_group_pattern grp with
    | Some group_context_match =>
        let group_context := Re.group group_context_match 1 in
        match Re.search key_pattern group_context with
        | Some group_key_match =>
            (* base_key is computed here and not used *)
            match Re.search id_attr_pattern trans_unit with
            | Some trans_id_match =>
                let trans_id := strip (Re.group trans_id_match 1) in
                match find (fun missing_key =>
                              contains trans_id missing_key || contains missing_key trans_id)
                        missing_keys with
                | Some missing_key => Some missing_key
                | None => k
                end
            | None => k
            end
        | None => k
        end
    | None => k
    end
  else k.

(** The loop over the trans-units of one group in the second approach
    (lines 290-352); the state is [updated_group], [group_modified] and
    [updated_keys]. *)
Fixpoint second_units (edited_translations : dict edit) (missing_keys : list str)
    (grp : str) (group_trans_units : list str) (st : str * bool * list str)
    : str * bool * list str :=
  match group_trans_units with
  | [] => st
  | trans_unit :: rest =>
      let '(updated_group, group_modified, updated_keys) := st in
      let k := second_key missing_keys grp trans_unit in
      let st' :=
        if key_truthy k then
          match k with
          | Some k =>
              if set_mem missing_keys k then
                match dict_get edited_translations k with
                | Some e =>
                    match retarget trans_unit (new e) with
                    | Some updated_trans_unit =>
                        (replace updated_group trans_unit updated_trans_unit,
                         true, set_add updated_keys k)
                    | None => st
                    end
                | None => st
                end
              else st
          | None => st
          end
        else st in
      second_units edited_translations missing_keys grp rest st'
  end.

(** The second approach (lines 284-366): the loop over the groups. *)
Fixpoint second_pass (edited_translations : dict edit) (missing_keys : list str)
    (groups : list str) (j : nat) (st : str * list str) : str * list str :=
  match groups with
  | [] => st
  | grp :: rest =>
      let '(updated_xml, updated_keys) := st in
      let group_trans_units := Re.findall trans_unit_pattern_g grp in
      let '(updated_group, group_modified, updated_keys) :=
        second_units edited_translations missing_keys grp group_trans_units
          (grp, false, updated_keys) in
      let updated_xml :=
        if group_modified then
          replace_marked updated_xml grp updated_group
            (marker "GROUP_START" (object_id 1 j)) (marker "GROUP_END" (object_id 1 j))
        else updated_xml in
      second_pass edited_translations missing_keys rest (S j) (updated_xml, updated_keys)
  end.

(** [set(edited_translations.keys()) - updated_keys] *)
Definition keys_missing (edited_translations : dict edit) (updated_keys : list str)
    : list str :=
  filter (fun k => negb (set_mem updated_keys k)) (map fst edited_translations).

(** [XMLParser.update_xml_content(original_xml_content, processed_data)],
    without a logger. *)
Definition update_xml_content (original_xml_content : str)
    (processed_data : list entry) : outcome str :=
  if negb (truthy original_xml_content) then
    Raise (ValueError (py "No original XML content available"))
  else
    match processed_data with
    | [] => Raise (ValueError (py "No processed data available"))
    | _ :: _ =>
        let '(key_to_translation, edited_translations) :=
          fold_left collect processed_data ([], []) in
        match edited_translations with
        | [] => Return original_xml_content
        | _ :: _ =>
            let updated_xml := original_xml_content in
            let trans_units := Re.findall trans_unit_pattern_g updated_xml in
            let '(updated_xml, updated_keys) :=
              first_pass edited_translations trans_units 0 (updated_xml, []) in
            let missing_keys := keys_missing edited_translations updated_keys in
            let '(updated_xml, updated_keys) :=
              match missing_keys with
              | [] => (updated_xml, updated_keys)
              | _ :: _ =>
                  let groups := Re.findall group_pattern_g updated_xml in
                  second_pass edited_translations missing_keys groups 0
                    (updated_xml, updated_keys)
              end in
            let cleaned_xml := Re.sub marker_pattern (fun _ => []) updated_xml in
            Return cleaned_xml
        end
    end.

End WithRuntime.
End XMLParser.

(** ** src/utils.py, the functions of keys and items *)

Module ItemUtils.

(** [extract_main_key(full_key)] *)
Definition extract_main_key (full_key : str) : str :=
  if negb (truthy full_key) then []
  else
    let slash_index := str_find (py "/") full_key in
    if negb (slash_index =? -1)%Z then upto full_key slash_index
    else
      let last_dot_index := str_rfind (py ".") full_key in
      if negb (last_dot_index =? -1)%Z then upto full_key last_dot_index
      else full_key.

(** [r'(Developer Comment:|Comment:|CoT Comment:)'] *)
Definition comment_alternatives : list Re.regex :=
  [Re.lit "Developer Comment:"; Re.lit "Comment:"; Re.lit "CoT Comment:"].

(** [has_comments(item)] *)
Definition has_comments (item : XMLParser.record) : bool :=
  let note_text := XMLParser.note_text item in
  if negb (truthy note_text) then false
  else
    match Re.search_alternatives comment_alternatives note_text with
    | Some _ => true
    | None => false
    end.

(** Python's [<] on tuples of a boolean and a list of integers, and on
    tuples of two integers: the first components decide unless they are
    equal; a list that is a proper prefix of another is the smaller. *)
Fixpoint list_lt (a b : list Z) : bool :=
  match a, b with
  | [], [] => false
  | [], _ :: _ => true
  | _ :: _, [] => false
  | x :: a', y :: b' => if (x =? y)%Z then list_lt a' b' else (x <? y)%Z
  end.

Definition sort_key_lt (a b : bool * list Z) : bool :=
  if Bool.eqb (fst a) (fst b) then list_lt (snd a) (snd b)
  else negb (fst a) && fst b.

Definition order_index_lt (a b : Z * nat) : bool :=
  if (fst a =? fst b)%Z then snd a <? snd b else (fst a <? fst b)%Z.

(** [sorted(l, key=...)] on a list whose keys are computed: the sort is
    stable, so the result is the one of any stable sort. *)
Fixpoint insert_sorted {K A} (lt : K -> K -> bool) (x : K * A) (l : list (K * A))
    : list (K * A) :=
  match l with
  | [] => [x]
  | y :: l' => if lt (fst y) (fst x) then y :: insert_sorted lt x l' else x :: y :: l'
  end.

Definition sort_keyed {K A} (lt : K -> K -> bool) (l : list (K * A)) : list (K * A) :=
  fold_right (insert_sorted lt) [] l.

(** The keys of the elements, or the first exception that a key raises. *)
Fixpoint keyed {K A} (key : A -> outcome K) (l : list A) : outcome (list (K * A)) :=
  match l with
  | [] => Return []
  | x :: l' =>
      match key x with
      | Raise e => Raise e
      | Return k =>
          match keyed key l' with
          | Raise e => Raise e
          | Return kl => Return ((k, x) :: kl)
          end
      end
  end.

Definition sorted {K A} (lt : K -> K -> bool) (key : A -> outcome K) (l : list A)
    : outcome (list A) :=
  match keyed key l with
  | Raise e => Raise e
  | Return kl => Return (map snd (sort_keyed lt kl))
  end.

Section WithRuntime.
Context {rt : Runtime}.

(** [int(num)] *)
Definition to_int (num : str) : outcome Z :=
  match int_of_digits num with
  | Some n => Return n
  | None => Raise (ValueError (py "Exceeds the limit for integer string conversion"))
  end.

(** [[int(num) for num in numbers]] *)
Fixpoint to_ints (numbers : list str) : outcome (list Z) :=
  match numbers with
  | [] => Return []
  | num :: rest =>
      match to_int num with
      | Raise e => Raise e
      | Return n =>
          match to_ints rest with
          | Raise e => Raise e
          | Return ns => Return (n :: ns)
          end
      end
  end.

(** [natural_sort_key(k)] *)
Definition natural_sort_key (k : str) : outcome (bool * list Z) :=
  let is_main_quest := contains (py "Main") k in
  let numbers := Re.findall [Re.Rep is_decimal 1 true] k in
  match to_ints numbers with
  | Return numeric_parts => Return (negb is_main_quest, numeric_parts)
  | Raise e => Raise e
  end.

(** [r'Line[_:](\d+)'] under [re.IGNORECASE]; the letter i also matches
    U+0130 and U+0131, the other letters have their two ASCII cases only. *)
Definition line_number_pattern : Re.regex :=
  [Re.Cls (Re.letter_ci 108 76);
   Re.Cls (fun c => (c =? 105) || (c =? 73) || (c =? 304) || (c =? 305))%N;
   Re.Cls (Re.letter_ci 110 78); Re.Cls (Re.letter_ci 101 69);
   Re.Cls (fun c => (c =? 95) || (c =? 58))%N;
   Re.Open; Re.Rep is_decimal 1 true; Re.Close].

(** [extract_line_number(item)] *)
Definition extract_line_number (item : XMLParser.record) : outcome Z :=
  let k := XMLParser.key item in
  let note_text := XMLParser.note_text item in
  match Re.search line_number_pattern k with
  | Some line_match => to_int (Re.group line_match 1)
  | None =>
      match Re.search line_number_pattern note_text with
      | Some line_match => to_int (Re.group line_match 1)
      | None => Return (XMLParser.order_value item)
      end
  end.

End WithRuntime.
End ItemUtils.

(** ** src/main_window.py: the display data of [parse_xml] *)

Module MainWindow.

(** An item of [display_data]: the fields of a record and, for the
    placeholder of a missing line, the two fields that it adds. *)
Record display_item := {
  fields : XMLParser.record;
  is_missing_line : bool;
  missing_line_number : option Z
}.

(** An element of [display_data]: the header of a group or a row with an
    item. *)
Inductive display_row :=
| Header (main_key : str) (item_count : nat) (is_menulabel contains_menulabel : bool)
| Row (item : display_item).

(** The element as [update_xml_content] and the matcher read it. *)
Definition to_entry (d : display_row) : XMLParser.entry :=
  match d with
  | Header _ _ _ _ => {| XMLParser.is_header := true; XMLParser.item := None |}
  | Row it => {| XMLParser.is_header := false; XMLParser.item := Some (fields it) |}
  end.

(** The body of the grouping loop (lines 2177-2183). *)
Definition group_step (grouped_data : dict (list XMLParser.record))
    (item : XMLParser.record) : dict (list XMLParser.record) :=
  let main_key := ItemUtils.extract_main_key (XMLParser.key item) in
  let main_key :=
    if negb (truthy main_key) then py "UngroupedContent" else main_key in
  let grouped_data :=
    if negb (dict_mem grouped_data main_key)
    then dict_set grouped_data main_key []
    else grouped_data in
  match dict_get grouped_data main_key with
  | Some l => dict_set grouped_data main_key (l ++ [item])
  | None => grouped_data
  end.

(** An item of the file. *)
Definition present (item : XMLParser.record) : display_item :=
  {| fields := item; is_missing_line := false; missing_line_number := None |}.

(** The placeholder of the missing line [expected_line_number], made from
    the item that follows it (lines 2214-2221). *)
Definition missing_line_item (item : XMLParser.record) (expected_line_number : Z)
    : display_item :=
  {| fields :=
       {| XMLParser.index := XMLParser.index item;
          XMLParser.group_id := XMLParser.group_id item;
          XMLParser.trans_id := XMLParser.trans_id item;
          XMLParser.source_text := py "[MISSING LINE]";
          XMLParser.target_text := py "[MISSING LINE]";
          XMLParser.original_target_text := XMLParser.original_target_text item;
          XMLParser.key :=
            XMLParser.key item ++ py "_missing_" ++ str_of_Z expected_line_number;
          XMLParser.speaker := XMLParser.speaker item;
          XMLParser.speaker_target := XMLParser.speaker_target item;
          XMLParser.speaker_gender := XMLParser.speaker_gender item;
          XMLParser.player_class := XMLParser.player_class item;
          XMLParser.player_gender := XMLParser.player_gender item;
          XMLParser.order_value := XMLParser.order_value item;
          XMLParser.note_text := XMLParser.note_text item;
          XMLParser.is_menulabel := XMLParser.is_menulabel item |};
     is_missing_line := true;
     missing_line_number := Some expected_line_number |}.

(** [lo, lo + 1, ...], [n] numbers. *)
Fixpoint upfrom (lo : Z) (n : nat) : list Z :=
  match n with
  | O => []
  | S n' => lo :: upfrom (lo + 1) n'
  end.

(** [sorted(items, key=lambda x: (x['order_value'], x['index']))] *)
Definition sort_items (items : list XMLParser.record) : list XMLParser.record :=
  map snd
    (ItemUtils.sort_keyed ItemUtils.order_index_lt
       (map (fun x => ((XMLParser.order_value x, XMLParser.index x), x)) items)).

Section WithRuntime.
Context {rt : Runtime}.

(** The loop that fills the missing lines of a group (lines 2207-2226),
    from the line number that is expected next. *)
Fixpoint ordered_items (group_items : list XMLParser.record)
    (expected_line_number : Z) : outcome (list display_item) :=
  match group_items with
  | [] => Return []
  | item :: rest =>
      match ItemUtils.extract_line_number item with
      | Raise e => Raise e
      | Return current_line_number =>
          let missing :=
            map (missing_line_item item)
              (upfrom expected_line_number
                 (Z.to_nat (current_line_number - expected_line_number))) in
          match ordered_items rest (current_line_number + 1) with
          | Raise e => Raise e
          | Return following => Return (missing ++ present item :: following)
          end
      end
  end.

(** The header of a group and its rows (lines 2228-2242). *)
Definition group_rows (main_key : str) (ordered_group_items : list display_item)
    : list display_row :=
  Header main_key (List.length ordered_group_items)
    (existsb (fun it => XMLParser.is_menulabel (fields it)) ordered_group_items)
    (existsb (fun it => contains (py "MenuLabel") (XMLParser.key (fields it)))
       ordered_group_items)
  :: map Row ordered_group_items.

(** The loop over the sorted main keys (lines 2195-2242). *)
Fixpoint display_groups (grouped_data : dict (list XMLParser.record))
    (sorted_keys : list str) : outcome (list display_row) :=
  match sorted_keys with
  | [] => Return []
  | main_key :: rest =>
      let group_items :=
        sort_items (match dict_get grouped_data main_key with
                    | Some l => l
                    | None => []
                    end) in
      match ordered_items group_items 1 with
      | Raise e => Raise e
      | Return ordered_group_items =>
          match display_groups grouped_data rest with
          | Raise e => Raise e
          | Return following =>
              Return (group_rows main_key ordered_group_items ++ following)
          end
      end
  end.

(** What [parse_xml] makes of the records of the extraction and stores in
    [self.processed_data] (lines 2175-2245). *)
Definition display_data (processed_data : list XMLParser.record)
    : outcome (list display_row) :=
  let grouped_data := fold_left group_step processed_data [] in
  match ItemUtils.sorted ItemUtils.sort_key_lt ItemUtils.natural_sort_key
          (map fst grouped_data) with
  | Raise e => Raise e
  | Return sorted_keys => display_groups grouped_data sorted_keys
  end.

(** [MainWindow.parse_xml(xml_content)], up to the display in the table. *)
Definition parse_xml (xml_content : str) : outcome (list display_row) :=
  display_data (XMLParser.parse_xml xml_content).

End WithRuntime.
End MainWindow.

(** ** src/document_parser.py *)

Module DocumentParser.

(** A [pandas.DataFrame] of strings: the column labels and the rows, a row
    being a mapping from a column label to the text of the cell. *)
Record DataFrame := {
  columns : list str;
  rows : list (str -> str)
}.

(** An element of [self.tables]. *)
Record table := {
  id : nat;
  dataframe : DataFrame;
  has_conversation_column : bool;
  conversation_column : option str
}.

(** A value of [mxliff_lookup]. *)
Record lookup_value := {
  lookup_key : str;        (* 'key' *)
  original_text : str
}.

(** An element of [updates]; ['match_ratio'] is present in a fuzzy update
    only. *)
Record update := {
  key : str;
  source_text : str;
  comment : str;
  match_type : str;
  match_ratio : option Q
}.

(** The returned dictionary. *)
Record match_result := {
  matches : nat;
  updates : list update
}.

(** *** _clean_text_for_comparison (the second, active definition) *)

(** The class of the first [re.sub] (line 694).  The two adjacent literals
    [r'['] and ['‚‛..„‟\x00-\x1F\x7F]'] make the class of U+201A, U+201B,
    the double quote, U+201E, U+201F, the range U+0000-U+001F and U+007F. *)
Definition quote_class (c : N) : bool :=
  ((c =? 8218) || (c =? 8219) || (c =? 34) || (c =? 34) || (c =? 8222)
   || (c =? 8223) || (c <=? 31) || (c =? 127))%N.

(** The dictionary of the replacement function (lines 694-699).  Its
    first key is the triple-quoted literal that runs from line 695 to
    line 696; its second key, the double quote, is written twice. *)
Definition quote_map : dict str :=
  [ (py ": " ++ [34; 39; 34]%N ++ py ",   # Left single quote" ++ [10%N]
       ++ py "                ", [39%N]);
    ([34%N], [34%N]) ].

(** [lambda m: {...}.get(m.group(0), ' ')] *)
Definition quote_repl (m : Re.Match) : str :=
  match dict_get quote_map (Re.group m 0) with
  | Some v => v
  | None => py " "
  end.

(** [r'\s+'] *)
Definition spaces_pattern : Re.regex := [Re.Rep is_space 1 true].

(** [re.sub] raises nothing on a [str], so the [except] branch of the
    source (return the text as it is) is never taken. *)
Definition _clean_text_for_comparison (text : option str) : str :=
  match text with
  | None => []
  | Some text =>
      let text := strip text in
      if negb (truthy text) then []
      else
        let text := Re.sub [Re.Cls quote_class] quote_repl text in
        strip (Re.sub spaces_pattern (fun _ => py " ") text)
  end.

(** *** _clean_text *)

(** [DocumentParser._clean_text(text)] (lines 709-734): the
    non-breaking spaces become spaces, the control characters other than
    newline, carriage return and tab become spaces, and white space is
    collapsed and trimmed. *)
Definition _clean_text (text : option str) : str :=
  match text with
  | None => []
  | Some text =>
      let text := replace text [160%N] (py " ") in
      let text :=
        flat_map (fun c =>
                    if (32 <=? c)%N || contains [c] [10; 13; 9]%N then [c] else py " ")
          text in
      strip (Re.sub spaces_pattern (fun _ => py " ") text)
  end.

Section WithRuntime.
Context {rt : Runtime}.

(** *** match_content_with_mxliff (the second, active definition) *)

Definition MAX_MATCHES : nat := 500.

Definition preprocess_text (text : str) : str :=
  _clean_text_for_comparison (Some (strip text)).

(** The loop that builds [mxliff_lookup] (lines 754-764). *)
Definition add_lookup (mxliff_lookup : dict lookup_value) (data : XMLParser.entry)
    : dict lookup_value :=
  if negb (XMLParser.is_header data) then
    match XMLParser.item data with
    | Some it =>
        let source_text := strip (XMLParser.source_text it) in
        if truthy source_text then
          let clean_source := preprocess_text source_text in
          if 10 <=? List.length clean_source then
            dict_set mxliff_lookup clean_source
              {| lookup_key := XMLParser.key it; original_text := source_text |}
          else mxliff_lookup
        else mxliff_lookup
    | None => mxliff_lookup
    end
  else mxliff_lookup.

(** [self.get_conversation_tables()] *)
Definition get_conversation_tables (tables : list table) : list table :=
  filter has_conversation_column tables.

(** [next((col for col in df.columns if word in str(col).lower()), None)] *)
Definition find_column (word : string) (df : DataFrame) : option str :=
  find (fun col => contains (py word) (str_lower col)) (columns df).
Arguments find_column word%_string df.

Definition Qltb (a b : Q) : bool := negb (Qle_bool b a).

(** [abs(n - m)] *)
Definition abs_diff (n m : nat) : nat := (n - m) + (m - n).

(** The body of the fuzzy loop (lines 818-832); the state is
    [best_match] and [best_ratio]. *)
Definition fuzzy_step (clean_source : str) (st : option lookup_value * Q)
    (kv : str * lookup_value) : option lookup_value * Q :=
  let '(best_match, best_ratio) := st in
  let '(mxliff_source, mxliff_data) := kv in
  if (List.length clean_source <? 10) || (List.length mxliff_source <? 10) then st
  else if 5 <? abs_diff (List.length clean_source) (List.length mxliff_source) then st
  else
    let ratio := sequence_ratio clean_source mxliff_source in
    if Qltb best_ratio ratio then (Some mxliff_data, ratio) else st.

(** The fuzzy search of one row (lines 815-832). *)
Definition fuzzy_search (mxliff_lookup : dict lookup_value) (clean_source : str)
    : option lookup_value * Q :=
  fold_left (fuzzy_step clean_source) mxliff_lookup (None, 0.8%Q).

(** What one row with a source text and a comment adds to [updates]
    (lines 800-842). *)
Definition match_row (mxliff_lookup : dict lookup_value)
    (source_text comment_text : str) : option update :=
  let clean_source := preprocess_text source_text in
  match dict_get mxliff_lookup clean_source with
  | Some match_data =>
      Some {| key := lookup_key match_data;
              source_text := clean_source;
              comment := comment_text;
              match_type := py "exact";
              match_ratio := None |}
  | None =>
      match fuzzy_search mxliff_lookup clean_source with
      | (Some best_match, best_ratio) =>
          Some {| key := lookup_key best_match;
                  source_text := original_text best_match;
                  comment := comment_text;
                  match_type := py "fuzzy";
                  match_ratio := Some best_ratio |}
      | (None, _) => None
      end
  end.

(** The loop over the rows of one table (lines 790-842); the state is
    [updates] and [match_count]. *)
Fixpoint rows_loop (mxliff_lookup : dict lookup_value) (source_col comments_col : str)
    (rws : list (str -> str)) (st : list update * nat) : list update * nat :=
  match rws with
  | [] => st
  | row :: rest =>
      let '(upd, match_count) := st in
      if MAX_MATCHES <=? match_count then st
      else
        let source_text := strip (row source_col) in
        let comment_text := strip (row comments_col) in
        if negb (truthy source_text) || negb (truthy comment_text)
        then rows_loop mxliff_lookup source_col comments_col rest st
        else
          match match_row mxliff_lookup source_text comment_text with
          | Some u =>
              rows_loop mxliff_lookup source_col comments_col rest
                (upd ++ [u], S match_count)
          | None => rows_loop mxliff_lookup source_col comments_col rest st
          end
  end.

(** The loop over the tables (lines 780-842). *)
Fixpoint tables_loop (mxliff_lookup : dict lookup_value)
    (conversation_tables : list table) (st : list update * nat)
    : list update * nat :=
  match conversation_tables with
  | [] => st
  | t :: rest =>
      let df := dataframe t in
      let source_col := find_column "source" df in
      let comments_col := find_column "comment" df in
      if negb (XMLParser.key_truthy source_col)
         || negb (XMLParser.key_truthy comments_col)
      then tables_loop mxliff_lookup rest st
      else
        match source_col, comments_col with
        | Some source_col, Some comments_col =>
            tables_loop mxliff_lookup rest
              (rows_loop mxliff_lookup source_col comments_col (rows df) st)
        | _, _ => tables_loop mxliff_lookup rest st
        end
  end.

(** [DocumentParser.match_content_with_mxliff(self, mxliff_data)], with
    [tables] for [self.tables]. *)
Definition match_content_with_mxliff (tables : list table)
    (mxliff_data : list XMLParser.entry) : match_result :=
  match mxliff_data, tables with
  | [], _ | _, [] => {| matches := 0; updates := [] |}
  | _ :: _, _ :: _ =>
      let mxliff_lookup := fold_left add_lookup mxliff_data [] in
      let conversation_tables :=
        filter (fun t => 0 <? List.length (rows (dataframe t)))
          (get_conversation_tables tables) in
      match conversation_tables with
      | [] => {| matches := 0; updates := [] |}
      | _ :: _ =>
          let '(upd, match_count) :=
            tables_loop mxliff_lookup conversation_tables ([], 0) in
          {| matches := match_count; updates := upd |}
      end
  end.

End WithRuntime.
End DocumentParser.

(** ** A runtime for the examples

    [difflib.SequenceMatcher(None, a, b).ratio()] as the library computes
    it when [b] has fewer than 200 characters (from 200 on, its autojunk
    heuristic drops frequent characters): twice the total size of the
    matching blocks over the sum of the two lengths. *)

Module Difflib.

Fixpoint common_prefix (a b : str) : nat :=
  match a, b with
  | x :: a', y :: b' => if (x =? y)%N then S (common_prefix a' b') else 0
  | _, _ => 0
  end.

Definition block := (nat * nat * nat)%type.

Fixpoint scan_b (a : str) (i : nat) (b : str) (j : nat) (best : block) : block :=
  match b with
  | [] => best
  | _ :: b' =>
      let k := common_prefix a b in
      scan_b a i b' (S j) (if snd best <? k then (i, j, k) else best)
  end.

Fixpoint scan_a (a : str) (i : nat) (b : str) (best : block) : block :=
  match a with
  | [] => best
  | _ :: a' => scan_a a' (S i) b (scan_b a i b 0 best)
  end.

(** The longest block common to [a] and [b], the first in [a] and then
    the first in [b] among the longest. *)
Definition find_longest_match (a b : str) : block := scan_a a 0 b (0, 0, 0).

(** The total size of [get_matching_blocks()]. *)
Fixpoint matching_total (fuel : nat) (a b : str) : nat :=
  match fuel with
  | O => 0
  | S fuel' =>
      let '(i, j, k) := find_longest_match a b in
      if k =? 0 then 0
      else k + matching_total fuel' (firstn i a) (firstn j b)
             + matching_total fuel' (skipn (i + k) a) (skipn (j + k) b)
  end.

Definition ratio (a b : str) : Q :=
  let total := List.length a + List.length b in
  match total with
  | O => 1%Q
  | S _ => Qmake (Z.of_nat (2 * matching_total (S (List.length a)) a b))
                 (Pos.of_nat total)
  end.

End Difflib.

Module Example.

(** [str.lower] on ASCII text. *)
Definition ascii_lower (s : str) : str :=
  map (fun c => if ((65 <=? c) && (c <=? 90))%N then (c + 32)%N else c) s.

Definition ascii_digit (c : N) : bool := ((48 <=? c) && (c <=? 57))%N.

(** [int] of a run of ASCII digits.  Since CPython 3.11 (and the security
    releases of 3.7 to 3.10) [int] raises [ValueError] on more than
    [sys.get_int_max_str_digits()] = 4300 digits. *)
Definition int_ascii (s : str) : option Z :=
  if 4300 <? List.length s then None
  else Some (fold_left (fun acc c => (10 * acc + Z.of_N (c - 48))%Z) s 0%Z).

#[local] Instance cpython : Runtime := {|
  str_lower := ascii_lower;
  is_decimal := ascii_digit;
  int_of_digits := int_ascii;
  sequence_ratio := Difflib.ratio;
  object_id := fun l i => (140000000000000 + 4096 * N.of_nat l + 64 * N.of_nat i)%N
|}.


(** *** Documents *)

Definition q : str := [34%N].
Definition nl : str := [10%N].

Definition context (context_type : string) (text : str) : str :=
  py "<context context-type=" ++ q ++ py context_type ++ q ++ py ">" ++ text
  ++ py "</context>".
Arguments context context_type%_string text.

Definition context_group (body : str) : str :=
  py "<context-group>" ++ body ++ py "</context-group>".

Definition trans_unit (id : string) (body : str) : str :=
  py "<trans-unit id=" ++ q ++ py id ++ q ++ py ">" ++ body ++ py "</trans-unit>".
Arguments trans_unit id%_string body.

Definition group (id : string) (body : str) : str :=
  py "<group id=" ++ q ++ py id ++ q ++ py ">" ++ body ++ py "</group>".
Arguments group id%_string body.

Definition source_target (source target : string) : str :=
  py "<source>" ++ py source ++ py "</source><target>" ++ py target ++ py "</target>".
Arguments source_target (source target)%_string.

(** Two groups, each with its key in the group-level context and one
    trans-unit; the two trans-units have the same source text, and the
    targets [target1] and [target2]. *)
Definition two_groups (target1 target2 : string) : str :=
  py "<body>"
  ++ group "g1" (context_group (context "x-key" (py "Dlg/Line_2"))
                 ++ trans_unit "1" (source_target "Hello" target1))
  ++ nl
  ++ group "g2" (context_group (context "x-key" (py "Dlg/Line_3"))
                 ++ trans_unit "2" (source_target "Hello" target2))
  ++ py "</body>".
Arguments two_groups (target1 target2)%_string.

(** One group of two trans-units, each with its key in a context block of
    its own; the same source text, and the targets [target1] and
    [target2]. *)
Definition two_units (target1 target2 : string) : str :=
  group "g1"
    (trans_unit "a" (context_group (context "x-key" (py "K/One"))
                     ++ source_target "Hello" target1)
     ++ trans_unit "b" (context_group (context "x-key" (py "K/Two"))
                        ++ source_target "Hello" target2)).
Arguments two_units (target1 target2)%_string.

(** A group with a key and a key note, and a trans-unit whose own context
    block has a key and no key note. *)
Definition unit_with_key_only : str :=
  trans_unit "1" (source_target "Hi" "Salut"
                  ++ context_group (context "x-key" (py "Unit/Key"))).

Definition group_with_note : str :=
  group "g1" (context_group (context "x-key" (py "Group/Key")
                             ++ context "x-key-note" (py "Speaker: Bob"))
              ++ unit_with_key_only).

(** A group without a context block at its own level: its first
    trans-unit has a block with a key and a key note, its second one a
    block with a key note only. *)
Definition group_without_block : str :=
  group "g1"
    (trans_unit "a" (context_group (context "x-key" (py "K/One")
                                    ++ context "x-key-note" (py "Speaker: Ann"))
                     ++ source_target "Hello" "Bonjour")
     ++ trans_unit "b" (context_group (context "x-key-note" (py "Speaker: Bob"))
                        ++ source_target "Bye" "Salut")).

(** Three groups; in the second, the key note of the trans-unit 3 gives
    an order of 4301 digits. *)
Definition long_order : str := py "Order: " ++ repeat 57%N 4301.

Definition failing_group : str :=
  group "g2" (context_group (context "x-key" (py "G2/Key"))
              ++ trans_unit "2" (source_target "B" "b")
              ++ trans_unit "3" (source_target "C" "c"
                                 ++ context_group (context "x-key-note" long_order))
              ++ trans_unit "4" (source_target "D" "d")).

Definition three_groups : str :=
  group "g1" (trans_unit "1" (source_target "A" "a"))
  ++ failing_group
  ++ group "g3" (trans_unit "5" (source_target "E" "e")).

(** *** Records *)

Definition with_target (new_text : str) (r : XMLParser.record) : XMLParser.record :=
  {| XMLParser.index := XMLParser.index r;
     XMLParser.group_id := XMLParser.group_id r;
     XMLParser.trans_id := XMLParser.trans_id r;
     XMLParser.source_text := XMLParser.source_text r;
     XMLParser.target_text := new_text;
     XMLParser.original_target_text := XMLParser.original_target_text r;
     XMLParser.key := XMLParser.key r;
     XMLParser.speaker := XMLParser.speaker r;
     XMLParser.speaker_target := XMLParser.speaker_target r;
     XMLParser.speaker_gender := XMLParser.speaker_gender r;
     XMLParser.player_class := XMLParser.player_class r;
     XMLParser.player_gender := XMLParser.player_gender r;
     XMLParser.order_value := XMLParser.order_value r;
     XMLParser.note_text := XMLParser.note_text r;
     XMLParser.is_menulabel := XMLParser.is_menulabel r |}.

(** The user edits the target text of the record of key [k]. *)
Definition edit (k new_text : string) (r : XMLParser.record) : XMLParser.record :=
  if eqb (XMLParser.key r) (py k) then with_target (py new_text) r else r.
Arguments edit (k new_text)%_string r.

(** The list the main window builds: a header, then a row for each item. *)
Definition display_data (items : list XMLParser.record) : list XMLParser.entry :=
  {| XMLParser.is_header := true; XMLParser.item := None |}
  :: map (fun r => {| XMLParser.is_header := false; XMLParser.item := Some r |}) items.

(** An item with a key and a source text. *)
Definition item_of (k source : str) : XMLParser.record :=
  {| XMLParser.index := 0;
     XMLParser.group_id := py "g1";
     XMLParser.trans_id := py "1";
     XMLParser.source_text := source;
     XMLParser.target_text := [];
     XMLParser.original_target_text := [];
     XMLParser.key := k;
     XMLParser.speaker := [];
     XMLParser.speaker_target := [];
     XMLParser.speaker_gender := [];
     XMLParser.player_class := [];
     XMLParser.player_gender := [];
     XMLParser.order_value := 9999%Z;
     XMLParser.note_text := [];
     XMLParser.is_menulabel := false |}.

(** *** Tables *)

Definition row_of (cells : dict str) : str -> str :=
  fun col => match dict_get cells col with Some v => v | None => [] end.

(** A conversation table with a comment column before the column of the
    coteam comments. *)
Definition two_comment_columns : DocumentParser.table :=
  {| DocumentParser.id := 1;
     DocumentParser.dataframe :=
       {| DocumentParser.columns := [py "Source"; py "Comment"; py "COTeam Comments"];
          DocumentParser.rows :=
            [row_of [(py "Source", py "Hello there, traveller!");
                     (py "Comment", py "plain");
                     (py "COTeam Comments", py "from the coteam")]] |};
     DocumentParser.has_conversation_column := true;
     DocumentParser.conversation_column := Some (py "Conversation") |}.

Definition traveller_data : list XMLParser.entry :=
  display_data [item_of (py "K1") (py "Hello there, traveller!")].


Definition lookup_of (k source : str) : dict DocumentParser.lookup_value :=
  [(source, {| DocumentParser.lookup_key := k; DocumentParser.original_text := source |})].


(** *** Documents for the display data *)

Definition keyed_unit (id key source target : string) : str :=
  trans_unit id (context_group (context "x-key" (py key))
                 ++ source_target source target).
Arguments keyed_unit (id key source target)%_string.

(** A group whose trans-units have the lines 1 and 2 of one dialogue. *)
Definition dialogue_lines_1_2 : str :=
  group "g1" (keyed_unit "1" "Dlg/Line_1" "Hello" "Bonjour"
              ++ keyed_unit "2" "Dlg/Line_2" "Bye" "Salut").

(** A group whose trans-units have the lines 1, 2 and 4 of one
    dialogue. *)
Definition dialogue_lines_1_2_4 : str :=
  group "g1" (keyed_unit "1" "Dlg/Line_1" "Hello" "Bonjour"
              ++ keyed_unit "2" "Dlg/Line_2" "Bye" "Salut"
              ++ keyed_unit "3" "Dlg/Line_4" "Wait" "Attends").

(** Trans-units of a side quest and of two main quests, one of them with
    a key without a slash. *)
Definition three_quests : str :=
  group "g1" (keyed_unit "1" "Side_Q2/Line_1" "Hello" "Bonjour"
              ++ keyed_unit "2" "Main_Q1/Line_2" "Bye" "Salut"
              ++ keyed_unit "3" "Main_Q1/Line_1" "Wait" "Attends"
              ++ keyed_unit "4" "Main_Q10.Line_1" "Now" "Maintenant").

(** The items of a group with the lines 1, 2 and 4. *)
Definition items_1_2_4 : list XMLParser.record :=
  [item_of (py "Dlg/Line_1") (py "Hello"); item_of (py "Dlg/Line_2") (py "Bye");
   item_of (py "Dlg/Line_4") (py "Wait")].

(** Main keys, and the same keys as [natural_sort_key] sorts them. *)
Definition quest_keys : list str :=
  [py "Side_Q2_05"; py "Main_Q1_10"; py "Main_Q1_2"].

Definition sorted_quest_keys : list str :=
  [py "Main_Q1_2"; py "Main_Q1_10"; py "Side_Q2_05"].

(** The display list that the main window makes of a document. *)
Definition display_of (xml_content : str) : list MainWindow.display_row :=
  match MainWindow.parse_xml xml_content with
  | Return display => display
  | Raise _ => []
  end.

End Example.

(** ** Functions that describe the text cleaning *)

Module Norm.

(** The length of the longest prefix of [s] in the class [p]. *)
Fixpoint span (p : N -> bool) (s : str) : nat :=
  match s with
  | c :: s' => if p c then S (span p s') else 0
  | [] => 0
  end.

(** What the first substitution of the cleaning makes of one character. *)
Definition unquote (c : N) : N :=
  if DocumentParser.quote_class c && negb (c =? 34)%N then 32%N else c.

(** Every run of white space becomes one space; [in_run] tells that the
    character before [s] was white space. *)
Fixpoint collapse (in_run : bool) (s : str) : str :=
  match s with
  | [] => []
  | c :: s' =>
      if is_space c
      then if in_run then collapse true s' else 32%N :: collapse true s'
      else c :: collapse false s'
  end.

(** All white space of [s] is single ASCII spaces. *)
Fixpoint single_spaced (after_space : bool) (s : str) : bool :=
  match s with
  | [] => true
  | c :: s' =>
      if is_space c
      then (c =? 32)%N && negb after_space && single_spaced true s'
      else single_spaced false s'
  end.


(** The character is one that the first substitution of
    [_clean_text_for_comparison] turns into a space. *)
Definition blanked (c : N) : bool :=
  DocumentParser.quote_class c && negb (c =? 34)%N.

(** The character is not white space. *)
Definition is_glyph (c : N) : bool := negb (is_space c).

(** A text in the normal form of [_clean_text_for_comparison]: no white
    space at either end, all white space single ASCII spaces, and no
    character that the first substitution changes. *)
Definition normal (t : str) : Prop :=
  strip t = t /\ single_spaced false t = true /\ Forall (fun c => blanked c = false) t.

(** What [_clean_text] makes of one character before it collapses the
    white space. *)
Definition unbreak (c : N) : N :=
  if (c =? 160)%N then 32%N
  else if (32 <=? c)%N || contains [c] [10; 13; 9]%N then c else 32%N.

End Norm.

(** ** Functions that describe the extraction *)

Module ParseSpec.
Section WithRuntime.
Context {rt : Runtime}.

Import XMLParser.

(** The trans-units of a group. *)
Definition group_units (grp : str) : list str :=
  Re.findall trans_unit_pattern grp.

(** The content of the context-group block a text carries, if any. *)
Definition own_block (text : str) : option str :=
  match Re.search context_group_pattern text with
  | Some m => Some (Re.group m 1)
  | None => None
  end.

(** The key and the key note a context-group block carries, if any. *)
Definition block_key (blk : str) : option str :=
  match Re.search key_pattern blk with
  | Some m => Some (strip (Re.group m 1))
  | None => None
  end.

Definition block_note (blk : str) : option str :=
  match Re.search note_pattern blk with
  | Some m => Some (strip (Re.group m 1))
  | None => None
  end.

Definition or_default (o : option str) (default : str) : str :=
  match o with Some s => s | None => default end.

(** The context of a trans-unit in the spec's words: a unit's own block
    overrides the group-level key and key note entirely, without merging. *)
Definition unit_context_overriding (group_key group_note_text trans_unit : str)
    : str * str :=
  match own_block trans_unit with
  | Some blk => (or_default (block_key blk) [], or_default (block_note blk) [])
  | None => (group_key, group_note_text)
  end.

(** Building the record of this trans-unit raises an exception. *)
Definition unit_raises (group_key group_note_text trans_unit : str) : bool :=
  match unit_record [] group_key group_note_text 0 trans_unit 0 with
  | Raise _ => true
  | Return _ => false
  end.

(** The trans-units that come before the first one that raises. *)
Fixpoint kept_units (group_key group_note_text : str) (trans_units : list str)
    : list str :=
  match trans_units with
  | [] => []
  | trans_unit :: rest =>
      if unit_raises group_key group_note_text trans_unit then []
      else trans_unit :: kept_units group_key group_note_text rest
  end.

Definition kept_of_group (grp : str) : list str :=
  kept_units (fst (group_context grp)) (snd (group_context grp)) (group_units grp).

(** Processing the group raises an exception. *)
Definition group_raises (grp : str) : bool :=
  existsb (unit_raises (fst (group_context grp)) (snd (group_context grp)))
    (group_units grp).

(** [r] is the record of the trans-unit [trans_unit] of the group [grp]. *)
Definition record_of (grp trans_unit : str) (r : record) : Prop :=
  exists group_id trans_idx n,
    unit_record group_id (fst (group_context grp)) (snd (group_context grp))
      trans_idx trans_unit n = Return r.

End WithRuntime.
End ParseSpec.

(** ** Predicates of the statements *)

Module Spec.
Section WithRuntime.
Context {rt : Runtime}.

Import DocumentParser.

(** An update is an exact one without a ratio, or a fuzzy one with a
    ratio. *)
Definition update_ok (u : update) : Prop :=
  (match_type u = py "exact" /\ match_ratio u = None)
  \/ (match_type u = py "fuzzy" /\ exists r, match_ratio u = Some r).

(** The invariant of the two loops of the matcher. *)
Definition loop_inv (st : list update * nat) : Prop :=
  snd st = List.length (fst st) /\ snd st <= MAX_MATCHES /\ Forall update_ok (fst st).

(** A lookup entry whose similarity to [clean_source] is computed: both
    texts have 10 characters or more and their lengths differ by 5 at
    most. *)
Definition candidate (clean_source mxliff_source : str) : Prop :=
  10 <= List.length clean_source /\ 10 <= List.length mxliff_source
  /\ abs_diff (List.length clean_source) (List.length mxliff_source) <= 5.

(** What the state of the fuzzy loop is worth: nothing chosen and the
    threshold, or a candidate of the lookup and its ratio above the
    threshold. *)
Definition fuzzy_state_ok (mxliff_lookup : dict lookup_value) (clean_source : str)
    (st : option lookup_value * Q) : Prop :=
  match fst st with
  | Some d =>
      (0.8 < snd st)%Q
      /\ exists src, In (src, d) mxliff_lookup /\ candidate clean_source src
                     /\ snd st = sequence_ratio clean_source src
  | None => snd st = 0.8%Q
  end.

(** The lookup entry [(k, v)] comes from a record of [mxliff_data]: a row
    that is no header, whose item has the stripped source text
    [original_text v], the key [lookup_key v] and the cleaned source text
    [k], of 10 characters or more. *)
Definition entry_of_record (mxliff_data : list XMLParser.entry)
    (k : str) (v : lookup_value) : Prop :=
  exists d it,
    In d mxliff_data /\ XMLParser.is_header d = false /\ XMLParser.item d = Some it
    /\ lookup_key v = XMLParser.key it
    /\ original_text v = strip (XMLParser.source_text it)
    /\ k = preprocess_text (strip (XMLParser.source_text it))
    /\ 10 <= List.length k.

(** The update [u] comes from a record of [mxliff_data] and from a cell
    with a comment: its key is the record's, its source text is the
    cleaned source text of the record when the match is exact and the
    stripped one when it is fuzzy, and its comment is not empty and has no
    white space around it. *)
Definition update_of_record (mxliff_data : list XMLParser.entry) (u : update) : Prop :=
  (exists k v,
     entry_of_record mxliff_data k v
     /\ key u = lookup_key v
     /\ ((match_type u = py "exact" /\ source_text u = k)
         \/ (match_type u = py "fuzzy" /\ source_text u = original_text v)))
  /\ comment u <> [] /\ strip (comment u) = comment u.

(** The rows of the tables that have a conversation column. *)
Definition conversation_rows (tables : list table) : nat :=
  list_sum (map (fun t => List.length (rows (dataframe t)))
              (get_conversation_tables tables)).

Definition has_word (word : string) (col : str) : bool :=
  contains (py word) (str_lower col).
Arguments has_word word%_string col.

(** The comment column in the spec's words: the first column whose name
    contains comment, preferring one that also contains coteam. *)
Definition comment_column_preferring_coteam (df : DataFrame) : option str :=
  match find (fun col => has_word "comment" col && has_word "coteam" col) (columns df) with
  | Some col => Some col
  | None => find (has_word "comment") (columns df)
  end.

End WithRuntime.
End Spec.

(** ** The display data of the main window: the notions its properties
    are stated with *)

Module Display.

Import MainWindow.

(** The main key under which the grouping loop files a record. *)
Definition group_key (item : XMLParser.record) : str :=
  if negb (truthy (ItemUtils.extract_main_key (XMLParser.key item)))
  then py "UngroupedContent"
  else ItemUtils.extract_main_key (XMLParser.key item).

(** The list that [grouped_data] holds for a key. *)
Definition group_of (grouped_data : dict (list XMLParser.record)) (main_key : str)
    : list XMLParser.record :=
  match dict_get grouped_data main_key with
  | Some l => l
  | None => []
  end.

(** [grouped_data] after the grouping loop has seen [records]: its keys
    are distinct, its lists hold the records, none is empty, and every
    record is under its own main key. *)
Definition grouped (records : list XMLParser.record)
    (grouped_data : dict (list XMLParser.record)) : Prop :=
  NoDup (map fst grouped_data)
  /\ Permutation records (flat_map snd grouped_data)
  /\ Forall (fun kv => snd kv <> []
                       /\ Forall (fun r => group_key r = fst kv) (snd kv))
       grouped_data.

(** The items of the rows of a display list. *)
Definition items_of (display : list display_row) : list display_item :=
  flat_map (fun d => match d with
                     | Row it => [it]
                     | Header _ _ _ _ => []
                     end) display.

(** The main keys of the headers of a display list. *)
Definition header_keys (display : list display_row) : list str :=
  flat_map (fun d => match d with
                     | Row _ => []
                     | Header main_key _ _ _ => [main_key]
                     end) display.

(** The records of the file among the items: the items that are no
    placeholders. *)
Definition records_of (items : list display_item) : list XMLParser.record :=
  map fields (filter (fun it => negb (is_missing_line it)) items).

(** The order of the items of a group: by order value, then by index. *)
Definition order_le (x y : XMLParser.record) : Prop :=
  ItemUtils.order_index_lt (XMLParser.order_value y, XMLParser.index y)
    (XMLParser.order_value x, XMLParser.index x) = false.

(** Line numbers that increase, the first one at least [expected]. *)
Fixpoint increasing_from (expected : Z) (lines : list Z) : Prop :=
  match lines with
  | [] => True
  | n :: rest => (expected <= n)%Z /\ increasing_from (n + 1) rest
  end.

Section WithRuntime.
Context {rt : Runtime}.

(** The line that a row stands for: the number of the missing line for a
    placeholder, the line number of the record otherwise. *)
Definition row_line (it : display_item) : outcome Z :=
  match missing_line_number it with
  | Some n => Return n
  | None => ItemUtils.extract_line_number (fields it)
  end.

End WithRuntime.
End Display.

(* ================================================================== *)
(** * Part II.  Lemmas and theorems                                    *)
(* ================================================================== *)

(** ** Strings *)

Lemma eqb_refl (s : str) : eqb s s = true.
Proof.
  induction s as [|c s IH]; simpl; [reflexivity|].
  now rewrite N.eqb_refl, IH.
Qed.

Lemma eqb_eq (a b : str) : eqb a b = true <-> a = b.
Proof.
  split.
  - revert b; induction a as [|x a IH]; intros [|y b] H; simpl in H;
      try discriminate; [reflexivity|].
    apply andb_true_iff in H as [Hxy Hab].
    apply N.eqb_eq in Hxy. f_equal; auto.
  - intros ->. apply eqb_refl.
Qed.

Lemma eqb_neq (a b : str) : eqb a b = false <-> a <> b.
Proof.
  split.
  - intros H ->. rewrite eqb_refl in H. discriminate.
  - intros H. destruct (eqb a b) eqn:E; [|reflexivity].
    apply eqb_eq in E. contradiction.
Qed.

Lemma truthy_nonempty (s : str) : truthy s = true <-> s <> [].
Proof. destruct s; simpl; split; congruence. Qed.

(** ** The patcher: inputs that are missing, and records without a change *)

Section Patcher.
Context {rt : Runtime}.

Import XMLParser.

(** A record list in which no target text differs from its original
    leaves [edited_translations] as it was. *)
Lemma collect_unchanged (processed_data : list entry) :
  (forall d it, In d processed_data -> item d = Some it ->
                target_text it = original_target_text it) ->
  forall acc, snd (fold_left collect processed_data acc) = snd acc.
Proof.
  induction processed_data as [|d ds IH]; intros Hsame acc; [reflexivity|].
  simpl. rewrite IH by (intros d' it' Hin; apply Hsame; now right).
  destruct acc as [ktt edited]. unfold collect.
  destruct (is_header d); simpl; [reflexivity|].
  destruct (item d) as [it|] eqn:Hit; [|reflexivity].
  destruct (truthy (key it)); [|reflexivity].
  rewrite (Hsame d it (or_introl eq_refl) Hit), eqb_refl. reflexivity.
Qed.

(** C1.  Round-trip identity: when every record's [target_text] equals
    its [original_target_text], [update_xml_content] applied to a non-empty
    XML text and a non-empty record list returns the XML text itself. *)
Theorem update_without_changes_is_identity
    (original_xml_content : str) (processed_data : list entry) :
  original_xml_content <> [] ->
  processed_data <> [] ->
  (forall d it, In d processed_data -> item d = Some it ->
                target_text it = original_target_text it) ->
  update_xml_content original_xml_content processed_data
  = Return original_xml_content.
Proof.
  intros Hxml Hdata Hsame. unfold update_xml_content.
  destruct original_xml_content as [|c xml]; [contradiction|]. simpl negb. cbv iota.
  destruct processed_data as [|d ds]; [contradiction|].
  pose proof (collect_unchanged (d :: ds) Hsame ([], [])) as Hsnd.
  destruct (fold_left collect (d :: ds) ([], [])) as [ktt edited].
  simpl in Hsnd. subst edited. reflexivity.
Qed.

(** C7.  [update_xml_content] raises [ValueError] when the XML text is
    empty or the record list is empty, and it returns a text for every
    other input. *)
Theorem update_raises_only_on_missing_input
    (original_xml_content : str) (processed_data : list entry) :
  (original_xml_content = [] \/ processed_data = [] ->
   exists msg, update_xml_content original_xml_content processed_data
               = Raise (ValueError msg))
  /\
  (original_xml_content <> [] -> processed_data <> [] ->
   exists cleaned_xml, update_xml_content original_xml_content processed_data
                       = Return cleaned_xml).
Proof.
  unfold update_xml_content. split.
  - intros [-> | ->]; simpl; [eauto|].
    destruct original_xml_content; simpl; eauto.
  - intros Hxml Hdata.
    destruct original_xml_content as [|c xml]; [contradiction|]. simpl negb. cbv iota.
    destruct processed_data as [|d ds]; [contradiction|].
    destruct (fold_left collect (d :: ds) ([], [])) as [ktt edited].
    destruct edited as [|e edited]; [eauto|].
    destruct (first_pass _ _ _ _) as [xml1 keys1].
    destruct (keys_missing _ _) as [|k ks]; [eauto|].
    destruct (second_pass _ _ _ _ _) as [xml2 keys2]. eauto.
Qed.

End Patcher.

(** ** The matcher *)

Section Matcher.
Context {rt : Runtime}.

Import DocumentParser Spec.

Lemma rows_loop_cons mxliff_lookup source_col comments_col row rest upd match_count :
  rows_loop mxliff_lookup source_col comments_col (row :: rest) (upd, match_count)
  = if MAX_MATCHES <=? match_count then (upd, match_count)
    else
      if negb (truthy (strip (row source_col))) || negb (truthy (strip (row comments_col)))
      then rows_loop mxliff_lookup source_col comments_col rest (upd, match_count)
      else
        match match_row mxliff_lookup (strip (row source_col)) (strip (row comments_col)) with
        | Some u =>
            rows_loop mxliff_lookup source_col comments_col rest
              (upd ++ [u], S match_count)
        | None => rows_loop mxliff_lookup source_col comments_col rest (upd, match_count)
        end.
Proof. reflexivity. Qed.

Lemma match_row_ok mxliff_lookup source_text comment_text u :
  match_row mxliff_lookup source_text comment_text = Some u -> update_ok u.
Proof.
  unfold match_row, update_ok.
  destruct (dict_get _ _) as [match_data|].
  - intros [= <-]. left. simpl. auto.
  - destruct (fuzzy_search _ _) as [[best_match|] best_ratio]; [|discriminate].
    intros [= <-]. right. simpl. eauto.
Qed.

Lemma rows_loop_inv mxliff_lookup source_col comments_col rws :
  forall st, loop_inv st ->
             loop_inv (rows_loop mxliff_lookup source_col comments_col rws st).
Proof.
  induction rws as [|row rest IH]; intros [upd n] Hinv; [exact Hinv|].
  rewrite rows_loop_cons.
  destruct (Nat.leb_spec MAX_MATCHES n) as [Hfull|Hroom]; [exact Hinv|].
  destruct (negb _ || negb _); [now apply IH|].
  destruct (match_row _ _ _) as [u|] eqn:Hrow; [|now apply IH].
  apply IH. destruct Hinv as (Hlen & Hle & Hok). simpl in *.
  repeat split; simpl.
  - rewrite length_app. simpl. lia.
  - lia.
  - apply Forall_app. split; [exact Hok|].
    constructor; [|constructor]. eapply match_row_ok, Hrow.
Qed.

Lemma rows_loop_full mxliff_lookup source_col comments_col rws upd n :
  MAX_MATCHES <= n ->
  rows_loop mxliff_lookup source_col comments_col rws (upd, n) = (upd, n).
Proof.
  intros Hfull. destruct rws as [|row rest]; [reflexivity|].
  rewrite rows_loop_cons.
  destruct (Nat.leb_spec MAX_MATCHES n); [reflexivity|lia].
Qed.

Lemma tables_loop_inv mxliff_lookup tables :
  forall st, loop_inv st -> loop_inv (tables_loop mxliff_lookup tables st).
Proof.
  induction tables as [|t rest IH]; intros st Hinv; [exact Hinv|].
  simpl.
  destruct (negb _ || negb _); [now apply IH|].
  destruct (find_column "source" _) as [s|]; [|now apply IH].
  destruct (find_column "comment" _) as [c|]; [|now apply IH].
  apply IH. now apply rows_loop_inv.
Qed.

Lemma tables_loop_full mxliff_lookup tables upd n :
  MAX_MATCHES <= n -> tables_loop mxliff_lookup tables (upd, n) = (upd, n).
Proof.
  intros Hfull. induction tables as [|t rest IH]; [reflexivity|].
  simpl.
  destruct (negb _ || negb _); [exact IH|].
  destruct (find_column "source" _) as [s|]; [|exact IH].
  destruct (find_column "comment" _) as [c|]; [|exact IH].
  now rewrite rows_loop_full.
Qed.

Lemma match_content_inv tables mxliff_data :
  let r := match_content_with_mxliff tables mxliff_data in
  loop_inv (updates r, matches r).
Proof.
  assert (H0 : loop_inv ([], 0)).
  { repeat split; simpl; [unfold MAX_MATCHES; lia | constructor]. }
  unfold match_content_with_mxliff.
  destruct mxliff_data as [|d ds]; [exact H0|].
  destruct tables as [|t ts]; [exact H0|].
  destruct (filter _ _) as [|t' ts']; [exact H0|].
  pose proof (tables_loop_inv (fold_left add_lookup (d :: ds) []) (t' :: ts') _ H0) as H.
  destruct (tables_loop _ _ _) as [upd n]. exact H.
Qed.

(** C6.  The updates returned by [match_content_with_mxliff] are 500 at
    most, whatever the tables and the records; and once 500 updates exist,
    no row of this table or of a later one adds an update. *)
Theorem updates_capped_at_500 :
  (forall tables mxliff_data,
     List.length (updates (match_content_with_mxliff tables mxliff_data)) <= 500)
  /\
  (forall mxliff_lookup source_col comments_col rws tables upd n,
     500 <= n ->
     rows_loop mxliff_lookup source_col comments_col rws (upd, n) = (upd, n)
     /\ tables_loop mxliff_lookup tables (upd, n) = (upd, n)).
Proof.
  split.
  - intros tables mxliff_data.
    destruct (match_content_inv tables mxliff_data) as (Hlen & Hle & _).
    simpl in Hlen, Hle. unfold MAX_MATCHES in Hle. lia.
  - intros. split; [apply rows_loop_full | apply tables_loop_full]; exact H.
Qed.

(** C10.  In the result of [match_content_with_mxliff], ['matches'] is the
    length of ['updates'], and every update has the match type exact or
    fuzzy, with a ['match_ratio'] exactly when it is fuzzy. *)
Theorem matches_counts_updates tables mxliff_data :
  let r := match_content_with_mxliff tables mxliff_data in
  matches r = List.length (updates r)
  /\ Forall (fun u =>
               (match_type u = py "exact" \/ match_type u = py "fuzzy")
               /\ (match_ratio u <> None <-> match_type u = py "fuzzy"))
            (updates r).
Proof.
  destruct (match_content_inv tables mxliff_data) as (Hlen & _ & Hok).
  simpl in *. split; [exact Hlen|].
  eapply Forall_impl; [|exact Hok].
  intros u [[Ht Hr] | [Ht [q Hr]]]; rewrite Ht, Hr.
  - split; [left; reflexivity|]. split.
    + intros H. now contradiction H.
    + intros H. cbv in H. discriminate H.
  - split; [right; reflexivity|]. split.
    + reflexivity.
    + discriminate.
Qed.

End Matcher.

(** ** The matcher: the choice of the columns *)

Lemma find_is_first_match {A} (f : A -> bool) (l : list A) (x : A) :
  find f l = Some x <->
  exists pre post,
    l = pre ++ x :: post /\ f x = true /\ Forall (fun y => f y = false) pre.
Proof.
  induction l as [|a l IH]; simpl.
  - split; [discriminate|]. intros (pre & post & H & _). now destruct pre.
  - destruct (f a) eqn:Hfa.
    + split.
      * intros [= ->]. exists [], l. auto.
      * intros (pre & post & Hl & Hfx & Hpre).
        destruct pre as [|b pre]; simpl in Hl; injection Hl as -> ->; [reflexivity|].
        apply Forall_inv in Hpre. congruence.
    + rewrite IH. split.
      * intros (pre & post & -> & Hfx & Hpre). exists (a :: pre), post. auto.
      * intros (pre & post & Hl & Hfx & Hpre).
        destruct pre as [|b pre]; simpl in Hl; injection Hl as -> ->; [congruence|].
        exists pre, post. apply Forall_inv_tail in Hpre. auto.
Qed.

Lemma find_none_iff {A} (f : A -> bool) (l : list A) :
  find f l = None <-> forall x, In x l -> f x = false.
Proof.
  split; [apply find_none|].
  induction l as [|a l IH]; intros H; [reflexivity|]. simpl.
  rewrite (H a (or_introl eq_refl)). apply IH. intros x Hx. apply H. now right.
Qed.

Section MatcherColumns.
Context {rt : Runtime}.

Import DocumentParser Spec.

(** C4, as the code has it.  The comment column of a table is the first
    column whose lower-cased name contains comment, whether or not a
    column with coteam in its name comes later; a table without a column
    that contains source, or without one that contains comment, is
    skipped; any other table has its rows matched on the two columns. *)
Theorem comment_column_is_first_with_comment :
  (forall df c,
     find_column "comment" df = Some c <->
     exists pre post,
       columns df = pre ++ c :: post
       /\ has_word "comment" c = true
       /\ Forall (fun c' => has_word "comment" c' = false) pre)
  /\
  (forall mxliff_lookup t rest st,
     (forall c, In c (columns (dataframe t)) -> has_word "source" c = false)
     \/ (forall c, In c (columns (dataframe t)) -> has_word "comment" c = false) ->
     tables_loop mxliff_lookup (t :: rest) st = tables_loop mxliff_lookup rest st)
  /\
  (forall mxliff_lookup t rest st source_col comments_col,
     find_column "source" (dataframe t) = Some source_col ->
     find_column "comment" (dataframe t) = Some comments_col ->
     source_col <> [] -> comments_col <> [] ->
     tables_loop mxliff_lookup (t :: rest) st
     = tables_loop mxliff_lookup rest
         (rows_loop mxliff_lookup source_col comments_col (rows (dataframe t)) st)).
Proof.
  split; [|split].
  - intros df c. unfold find_column. apply find_is_first_match.
  - intros mxliff_lookup t rest st Hlack. simpl.
    destruct Hlack as [Hno | Hno];
      apply (find_none_iff (has_word _)) in Hno; unfold find_column;
      fold (has_word "source"); fold (has_word "comment"); rewrite Hno; simpl.
    + reflexivity.
    + now rewrite orb_true_r.
  - intros mxliff_lookup t rest st source_col comments_col Hs Hc Hs0 Hc0. simpl.
    rewrite Hs, Hc. simpl.
    apply truthy_nonempty in Hs0, Hc0. now rewrite Hs0, Hc0.
Qed.

End MatcherColumns.

(** ** The matcher: the fuzzy threshold *)

Lemma Qltb_lt (a b : Q) : DocumentParser.Qltb a b = true <-> (a < b)%Q.
Proof.
  unfold DocumentParser.Qltb. rewrite negb_true_iff. split.
  - intros H. apply Qnot_le_lt. intros Hle.
    apply Qle_bool_iff in Hle. congruence.
  - intros H. destruct (Qle_bool b a) eqn:E; [|reflexivity].
    apply Qle_bool_iff in E. exfalso. eapply Qlt_not_le; eassumption.
Qed.

Lemma Qltb_ge (a b : Q) : DocumentParser.Qltb a b = false <-> (b <= a)%Q.
Proof.
  unfold DocumentParser.Qltb. rewrite negb_false_iff. apply Qle_bool_iff.
Qed.

Section Fuzzy.
Context {rt : Runtime}.

Import DocumentParser Spec.

Variable mxliff_lookup : dict lookup_value.
Variable clean_source : str.

Lemma fuzzy_state_above (st : option lookup_value * Q) :
  fuzzy_state_ok mxliff_lookup clean_source st -> (0.8 <= snd st)%Q.
Proof.
  unfold fuzzy_state_ok. destruct (fst st).
  - intros [H _]. now apply Qlt_le_weak.
  - intros ->. apply Qle_refl.
Qed.

Lemma fuzzy_step_cases (st : option lookup_value * Q) (src : str) (d : lookup_value) :
  (fuzzy_step clean_source st (src, d) = st
   /\ (candidate clean_source src -> (sequence_ratio clean_source src <= snd st)%Q))
  \/ (fuzzy_step clean_source st (src, d) = (Some d, sequence_ratio clean_source src)
      /\ candidate clean_source src
      /\ (snd st < sequence_ratio clean_source src)%Q).
Proof.
  destruct st as [best best_ratio]. unfold fuzzy_step, candidate. simpl.
  destruct (Nat.ltb_spec (List.length clean_source) 10) as [H1|H1]; simpl.
  { left. split; [reflexivity|]. lia. }
  destruct (Nat.ltb_spec (List.length src) 10) as [H2|H2]; simpl.
  { left. split; [reflexivity|]. lia. }
  destruct (Nat.ltb_spec 5 (abs_diff (List.length clean_source) (List.length src))) as [H3|H3].
  { left. split; [reflexivity|]. lia. }
  destruct (Qltb best_ratio (sequence_ratio clean_source src)) eqn:Hlt.
  - right. apply Qltb_lt in Hlt. repeat split; auto.
  - left. apply Qltb_ge in Hlt. auto.
Qed.

Lemma fuzzy_fold_ok (items : dict lookup_value) :
  incl items mxliff_lookup ->
  forall st,
    fuzzy_state_ok mxliff_lookup clean_source st ->
    fuzzy_state_ok mxliff_lookup clean_source
      (fold_left (fuzzy_step clean_source) items st).
Proof.
  induction items as [|[src d] items IH]; intros Hincl st Hst; [exact Hst|].
  simpl. apply IH; [intros x Hx; apply Hincl; now right|].
  destruct (fuzzy_step_cases st src d) as [[-> _] | (-> & Hcand & Hlt)]; [exact Hst|].
  unfold fuzzy_state_ok. simpl. split.
  - eapply Qle_lt_trans; [apply fuzzy_state_above, Hst | exact Hlt].
  - exists src. repeat split; try apply Hcand. apply Hincl. now left.
Qed.


Lemma fuzzy_search_ok :
  fuzzy_state_ok mxliff_lookup clean_source (fuzzy_search mxliff_lookup clean_source).
Proof. apply fuzzy_fold_ok; [apply incl_refl | reflexivity]. Qed.

End Fuzzy.

Section FuzzyThreshold.
Context {rt : Runtime}.

Import DocumentParser Spec.


End FuzzyThreshold.

(** ** Text cleaning *)

Section Cleaning.

Import DocumentParser Norm.

Lemma strip_nil : strip [] = [].
Proof. reflexivity. Qed.

Lemma lstrip_head (s : str) :
  lstrip s = [] \/ exists c t, lstrip s = c :: t /\ is_space c = false.
Proof.
  induction s as [|c s IH]; simpl; [now left|].
  destruct (is_space c) eqn:E; [exact IH|]. right. eauto.
Qed.

Lemma rstrip_head (c : N) (t : str) :
  is_space c = false -> exists r, rstrip (c :: t) = c :: r.
Proof.
  intros Hc. simpl. rewrite Hc. destruct (rstrip t); eauto.
Qed.

Lemma rstrip_idem (s : str) : rstrip (rstrip s) = rstrip s.
Proof.
  induction s as [|c s IH]; [reflexivity|]. simpl.
  destruct (rstrip s) as [|x r] eqn:E.
  - destruct (is_space c) eqn:Hc; simpl; [reflexivity|]. now rewrite Hc.
  - simpl. simpl in IH. rewrite IH. reflexivity.
Qed.

Lemma lstrip_fix (c : N) (t : str) : is_space c = false -> lstrip (c :: t) = c :: t.
Proof. intros H. simpl. now rewrite H. Qed.

Lemma lstrip_strip (s : str) : lstrip (strip s) = strip s.
Proof.
  unfold strip. destruct (lstrip_head s) as [-> | (c & t & -> & Hc)]; [reflexivity|].
  destruct (rstrip_head c t Hc) as [r ->]. now apply lstrip_fix.
Qed.

Lemma strip_idem (s : str) : strip (strip s) = strip s.
Proof.
  unfold strip at 1. rewrite lstrip_strip. unfold strip. apply rstrip_idem.
Qed.

(** *** The two substitutions, as functions on the characters *)

Lemma quote_repl_char (c : N) (gs : list str) :
  quote_repl {| Re.whole := [c]; Re.groups := gs |}
  = if (c =? 34)%N then [34%N] else [32%N].
Proof.
  destruct (N.eqb_spec c 34) as [-> | Hne]; [reflexivity|].
  unfold quote_repl, quote_map. cbn [dict_get Re.group Re.whole].
  match goal with
  | |- context [eqb ?k [c]] =>
      assert (E1 : eqb k [c] = false) by (cbn [py app eqb]; apply andb_false_r);
      rewrite E1
  end.
  assert (E2 : eqb [34%N] [c] = false).
  { cbn [eqb]. rewrite andb_true_r. apply N.eqb_neq. congruence. }
  now rewrite E2.
Qed.

Lemma sub_quotes (s : str) :
  Re.sub [Re.Cls quote_class] quote_repl s = map unquote s.
Proof.
  unfold Re.sub. induction s as [|c s IH]; [reflexivity|].
  cbn [Re.sub_go Re.run map].
  assert (Hu : unquote c = if quote_class c && negb (c =? 34)%N then 32%N else c)
    by reflexivity.
  destruct (quote_class c) eqn:Hq; cbn [andb] in Hu; cbv iota beta; rewrite IH, Hu.
  - unfold Re.mk_match. cbn [fst snd firstn Re.groups_of].
    rewrite quote_repl_char.
    destruct (N.eqb_spec c 34) as [-> | Hne]; reflexivity.
  - reflexivity.
Qed.

Lemma rep_greedy_all (p : N -> bool) (s : str) (pos : nat) :
  Re.rep p 0 true (Re.run []) s pos = Some (pos + span p s, []).
Proof.
  revert pos. induction s as [|c s IH]; intros pos; cbn.
  - now rewrite Nat.add_0_r.
  - destruct (p c); [|now rewrite Nat.add_0_r].
    rewrite IH. f_equal. f_equal. lia.
Qed.

Lemma run_spaces (c : N) (s : str) :
  Re.run spaces_pattern (c :: s) 0
  = if is_space c then Some (S (span is_space s), []) else None.
Proof.
  unfold spaces_pattern. cbn [Re.run Re.rep].
  destruct (is_space c); [|reflexivity]. now rewrite rep_greedy_all.
Qed.

Lemma sub_spaces (s : str) :
  Re.sub_go spaces_pattern (fun _ => py " ") (span is_space s) s = collapse true s
  /\ Re.sub_go spaces_pattern (fun _ => py " ") 0 s = collapse false s.
Proof.
  induction s as [|c s [IHrun IH0]]; [now split|].
  cbn [Re.sub_go span collapse]. rewrite run_spaces.
  destruct (is_space c); split; try (now rewrite ?IHrun, ?IH0).
Qed.

(** *** Strings in normal form *)

Lemma collapse_single_spaced (s : str) :
  single_spaced true (collapse true s) = true
  /\ single_spaced false (collapse false s) = true.
Proof.
  induction s as [|c s [IHt IHf]]; [now split|].
  cbn [collapse]. destruct (is_space c) eqn:Hc.
  - split; [exact IHt|]. cbn. now rewrite IHt.
  - cbn [single_spaced]. rewrite Hc. now split.
Qed.

Lemma single_spaced_fix (s : str) :
  forall b, single_spaced b s = true -> collapse b s = s.
Proof.
  induction s as [|c s IH]; intros b H; [reflexivity|].
  cbn in *. destruct (is_space c).
  - apply andb_true_iff in H as [H Hs]. apply andb_true_iff in H as [Hc Hb].
    apply N.eqb_eq in Hc. subst c. destruct b; [discriminate|].
    now rewrite IH.
  - now rewrite IH.
Qed.

Lemma single_spaced_lstrip (s : str) :
  forall b, single_spaced b s = true -> single_spaced false (lstrip s) = true.
Proof.
  induction s as [|c s IH]; intros b H; [reflexivity|].
  cbn in *. destruct (is_space c) eqn:Hc.
  - apply andb_true_iff in H as [_ Hs]. eapply IH, Hs.
  - cbn. now rewrite Hc.
Qed.

Lemma single_spaced_rstrip (s : str) :
  forall b, single_spaced b s = true -> single_spaced b (rstrip s) = true.
Proof.
  induction s as [|c s IH]; intros b H; [reflexivity|].
  cbn in H. cbn [rstrip].
  destruct (rstrip s) as [|x r] eqn:E.
  - destruct (is_space c) eqn:Hc; [reflexivity|]. cbn. now rewrite Hc.
  - cbn [single_spaced]. destruct (is_space c).
    + apply andb_true_iff in H as [H Hs]. rewrite H. now apply IH.
    + now apply IH.
Qed.

Lemma Forall_lstrip (P : N -> Prop) (s : str) : Forall P s -> Forall P (lstrip s).
Proof.
  induction 1 as [|c s Hc Hs IH]; [constructor|].
  cbn. destruct (is_space c); [exact IH | now constructor].
Qed.

Lemma Forall_rstrip (P : N -> Prop) (s : str) : Forall P s -> Forall P (rstrip s).
Proof.
  induction 1 as [|c s Hc Hs IH]; [constructor|].
  cbn. destruct (rstrip s) as [|x r].
  - destruct (is_space c); [constructor | constructor; [exact Hc | constructor]].
  - constructor; [exact Hc | exact IH].
Qed.

Lemma Forall_collapse (P : N -> Prop) (s : str) :
  P 32%N -> Forall P s -> forall b, Forall P (collapse b s).
Proof.
  intros H32. induction 1 as [|c s Hc Hs IH]; intros b; [constructor|].
  cbn. destruct (is_space c); [destruct b|]; auto.
Qed.

Lemma unquote_fixed (c : N) : unquote (unquote c) = unquote c.
Proof.
  unfold unquote. destruct (quote_class c && negb (c =? 34)%N) eqn:E.
  - reflexivity.
  - now rewrite E.
Qed.

Lemma map_unquote_fix_gen (f : N -> N) (s : str) :
  Forall (fun c => f c = c) s -> map f s = s.
Proof. induction 1; cbn; congruence. Qed.

Lemma map_unquote_fix (s : str) :
  Forall (fun c => unquote c = c) s -> map unquote s = s.
Proof. induction 1; cbn; congruence. Qed.

(** The cleaning of a text that strips to something. *)
Lemma clean_unfold (s : str) :
  _clean_text_for_comparison (Some s)
  = match strip s with
    | [] => []
    | _ :: _ => strip (collapse false (map unquote (strip s)))
    end.
Proof.
  unfold _clean_text_for_comparison.
  destruct (strip s) as [|c t] eqn:E; [reflexivity|]. cbn [truthy negb].
  rewrite sub_quotes. unfold Re.sub. now rewrite (proj2 (sub_spaces _)).
Qed.

Lemma clean_of_normal (t : str) :
  strip t = t -> single_spaced false t = true -> Forall (fun c => unquote c = c) t ->
  _clean_text_for_comparison (Some t) = t.
Proof.
  intros Hstrip Hsp Hq. rewrite clean_unfold, Hstrip.
  destruct t as [|c t']; [reflexivity|].
  rewrite (map_unquote_fix _ Hq), (single_spaced_fix _ _ Hsp). exact Hstrip.
Qed.

(** C9.  The text cleaning is idempotent, and it makes the empty string
    of [None] and of the empty string. *)
Theorem clean_text_is_idempotent :
  (forall s : str,
     _clean_text_for_comparison (Some (_clean_text_for_comparison (Some s)))
     = _clean_text_for_comparison (Some s))
  /\ _clean_text_for_comparison None = []
  /\ _clean_text_for_comparison (Some []) = [].
Proof.
  split; [|split; reflexivity].
  intros s. rewrite (clean_unfold s).
  destruct (strip s) as [|c t]; [reflexivity|].
  set (u := map unquote (c :: t)).
  apply clean_of_normal.
  - apply strip_idem.
  - unfold strip. apply single_spaced_rstrip.
    eapply single_spaced_lstrip, (proj2 (collapse_single_spaced u)).
  - unfold strip. apply Forall_rstrip, Forall_lstrip, Forall_collapse; [reflexivity|].
    unfold u. apply Forall_forall. intros x Hx.
    apply in_map_iff in Hx as (y & <- & _). apply unquote_fixed.
Qed.

End Cleaning.

(** ** The extraction *)

Lemma Forall2_in_right {A B} (R : A -> B -> Prop) (l : list A) (l' : list B) (y : B) :
  Forall2 R l l' -> In y l' -> exists x, In x l /\ R x y.
Proof.
  induction 1 as [|a b l l' Hab _ IH]; intros Hin; [contradiction|].
  destruct Hin as [<- | Hin].
  - exists a. split; [now left | exact Hab].
  - destruct (IH Hin) as (x & Hx & HR). exists x. split; [now right | exact HR].
Qed.

Section Extraction.
Context {rt : Runtime}.

Import XMLParser ParseSpec.

(** Whether a trans-unit raises depends on its text and on the context
    of its group only. *)
Lemma unit_record_outcome group_id group_key group_note_text trans_idx trans_unit n :
  match unit_record group_id group_key group_note_text trans_idx trans_unit n with
  | Return _ => unit_raises group_key group_note_text trans_unit = false
  | Raise _ => unit_raises group_key group_note_text trans_unit = true
  end.
Proof.
  unfold unit_raises, unit_record.
  destruct (unit_context group_key group_note_text trans_unit) as [unit_key unit_note_text].
  destruct (truthy unit_note_text); [|reflexivity].
  destruct (Utils.extract_order_value unit_note_text); reflexivity.
Qed.

Lemma unit_record_context group_id group_key group_note_text trans_idx trans_unit n r :
  unit_record group_id group_key group_note_text trans_idx trans_unit n = Return r ->
  key r = fst (unit_context group_key group_note_text trans_unit)
  /\ note_text r = snd (unit_context group_key group_note_text trans_unit).
Proof.
  unfold unit_record.
  destruct (unit_context group_key group_note_text trans_unit) as [unit_key unit_note_text].
  destruct (truthy unit_note_text).
  - destruct (Utils.extract_order_value unit_note_text); [|discriminate].
    intros [= <-]. split; reflexivity.
  - intros [= <-]. split; reflexivity.
Qed.

Lemma unit_context_by_field group_key group_note_text trans_unit :
  unit_context group_key group_note_text trans_unit
  = match own_block trans_unit with
    | Some blk => (or_default (block_key blk) group_key,
                   or_default (block_note blk) group_note_text)
    | None => (group_key, group_note_text)
    end.
Proof.
  unfold unit_context, own_block, block_key, block_note, group1_or, or_default.
  destruct (Re.search context_group_pattern trans_unit) as [m|]; [|reflexivity].
  destruct (Re.search key_pattern _), (Re.search note_pattern _); reflexivity.
Qed.

Lemma kept_units_incl group_key group_note_text trans_units trans_unit :
  In trans_unit (kept_units group_key group_note_text trans_units) ->
  In trans_unit trans_units.
Proof.
  induction trans_units as [|tu rest IH]; simpl; [auto|].
  destruct (unit_raises _ _ tu); [contradiction|].
  intros [-> | H]; auto.
Qed.

Lemma kept_units_all group_key group_note_text trans_units :
  existsb (unit_raises group_key group_note_text) trans_units = false ->
  kept_units group_key group_note_text trans_units = trans_units.
Proof.
  induction trans_units as [|tu rest IH]; simpl; [reflexivity|].
  intros H. apply orb_false_iff in H as [-> H]. now rewrite IH.
Qed.

(** The loop over the trans-units appends one record for each unit that
    comes before the first one that raises, and nothing else. *)
Lemma units_loop_structure group_id group_key group_note_text trans_units :
  forall trans_idx processed_data,
  exists appended,
    fst (units_loop group_id group_key group_note_text trans_units trans_idx processed_data)
    = processed_data ++ appended
    /\ Forall2 (fun trans_unit r =>
                  exists i n, unit_record group_id group_key group_note_text i trans_unit n
                              = Return r)
         (kept_units group_key group_note_text trans_units) appended.
Proof.
  induction trans_units as [|tu rest IH]; intros trans_idx processed_data.
  - exists []. simpl. rewrite app_nil_r. split; [reflexivity | constructor].
  - simpl.
    pose proof (unit_record_outcome group_id group_key group_note_text trans_idx tu
                  (List.length processed_data)) as Hout.
    destruct (unit_record group_id group_key group_note_text trans_idx tu
                (List.length processed_data)) as [r|e] eqn:Hrec; rewrite Hout.
    + destruct (IH (S trans_idx) (processed_data ++ [r])) as (appended & Heq & Hall).
      exists (r :: appended). split.
      * rewrite Heq, <- app_assoc. reflexivity.
      * constructor; [eauto | exact Hall].
    + exists []. simpl. rewrite app_nil_r. split; [reflexivity | constructor].
Qed.

Lemma process_group_structure group_idx grp processed_data :
  exists appended,
    fst (process_group group_idx grp processed_data) = processed_data ++ appended
    /\ Forall2 (record_of grp) (kept_of_group grp) appended.
Proof.
  unfold process_group, kept_of_group, record_of, group_units.
  destruct (group_context grp) as [group_key group_note_text]. simpl fst. simpl snd.
  match goal with
  | |- context [units_loop ?gid _ _ _ _ _] =>
      destruct (units_loop_structure gid group_key group_note_text
                  (Re.findall trans_unit_pattern grp) 0 processed_data)
        as (appended & Heq & Hall)
  end.
  exists appended. split; [exact Heq|].
  eapply Forall2_impl; [|exact Hall].
  intros tu r (i & n & H). eauto.
Qed.

(** The loop over the groups appends, group after group, what each group
    contributes, whether or not a group before it has raised. *)
Lemma groups_loop_structure groups :
  forall group_idx processed_data,
  exists per_group,
    groups_loop groups group_idx processed_data = processed_data ++ concat per_group
    /\ Forall2 (fun grp recs => Forall2 (record_of grp) (kept_of_group grp) recs)
         groups per_group.
Proof.
  induction groups as [|grp rest IH]; intros group_idx processed_data.
  - exists []. simpl. rewrite app_nil_r. split; [reflexivity | constructor].
  - simpl.
    destruct (process_group_structure group_idx grp processed_data)
      as (appended & Heq & Hall).
    destruct (IH (S group_idx) (fst (process_group group_idx grp processed_data)))
      as (per_group & Heq' & Hall').
    exists (appended :: per_group). split.
    + rewrite Heq', Heq, <- app_assoc. reflexivity.
    + constructor; assumption.
Qed.

(** C3, as the code has it.  The records are, group after group and in
    the order of the text, the records of the trans-units that come
    before the first raising one of their group -- of all the trans-units
    of a group in which none raises.  The record of a trans-unit that
    carries its own context block has the key of the block if the block
    has one and the default key of the group otherwise, and likewise for
    the key note, field by field; the record of a trans-unit without a
    block has both defaults.  The defaults of a group are the key and the
    key note of the first context block in the text of the group, be it
    the block of one of its trans-units, and are empty where this block
    has no such field or the group has no block. *)
Theorem unit_context_overrides_field_by_field (xml_content : str) :
  (exists per_group,
     parse_xml xml_content = concat per_group
     /\ Forall2
          (fun grp recs =>
             Forall2
               (fun trans_unit r =>
                  record_of grp trans_unit r
                  /\ match own_block trans_unit with
                     | Some blk =>
                         key r = or_default (block_key blk) (fst (group_context grp))
                         /\ note_text r
                            = or_default (block_note blk) (snd (group_context grp))
                     | None =>
                         key r = fst (group_context grp)
                         /\ note_text r = snd (group_context grp)
                     end)
               (kept_of_group grp) recs)
          (Re.findall group_pattern xml_content) per_group)
  /\ (forall grp,
        group_context grp
        = match own_block grp with
          | Some blk => (or_default (block_key blk) [], or_default (block_note blk) [])
          | None => ([], [])
          end)
  /\ (forall grp, group_raises grp = false -> kept_of_group grp = group_units grp).
Proof.
  split; [|split].
  - unfold parse_xml.
    destruct (groups_loop_structure (Re.findall group_pattern xml_content) 0 [])
      as (per_group & Heq & Hall).
    exists per_group. split; [exact Heq|].
    eapply Forall2_impl; [|exact Hall]. intros grp recs Hrecs.
    eapply Forall2_impl; [|exact Hrecs]. intros trans_unit r Hrec.
    split; [exact Hrec|].
    destruct Hrec as (group_id & trans_idx & n & Hrec).
    apply unit_record_context in Hrec as [Hk Hn].
    rewrite unit_context_by_field in Hk, Hn.
    destruct (own_block trans_unit); simpl in Hk, Hn; auto.
  - intros grp. exact (unit_context_by_field [] [] grp).
  - intros grp Hok. unfold kept_of_group. apply kept_units_all. exact Hok.
Qed.

(** C8, as the code has it.  The extraction always returns a list; a text
    without a group gives the empty list; and the list is made, group
    after group in the order of the text, of the records of the
    trans-units that come before the first one of their group that
    raises -- all the trans-units of a group in which none raises,
    whatever happens in the other groups. *)
Theorem extraction_continues_after_a_failing_group (xml_content : str) :
  (Re.findall group_pattern xml_content = [] -> parse_xml xml_content = [])
  /\ (exists per_group,
        parse_xml xml_content = concat per_group
        /\ Forall2 (fun grp recs => Forall2 (record_of grp) (kept_of_group grp) recs)
             (Re.findall group_pattern xml_content) per_group)
  /\ (forall grp, group_raises grp = false -> kept_of_group grp = group_units grp).
Proof.
  split; [|split].
  - intros Hnone. unfold parse_xml. now rewrite Hnone.
  - unfold parse_xml.
    destruct (groups_loop_structure (Re.findall group_pattern xml_content) 0 [])
      as (per_group & Heq & Hall).
    exists per_group. split; [exact Heq | exact Hall].
  - intros grp Hok. apply kept_units_all, Hok.
Qed.

End Extraction.

(** ** The statements on the example documents and tables *)

Section Examples.

Import Example.
#[local] Existing Instance cpython.

(** The round trip (C1) on the document of two groups, with the records
    as the extraction gives them. *)
Lemma update_without_changes_witness :
  XMLParser.update_xml_content (two_groups "Bonjour" "Bonjour")
    (display_data (XMLParser.parse_xml (two_groups "Bonjour" "Bonjour")))
  = Return (two_groups "Bonjour" "Bonjour").
Proof.
  apply update_without_changes_is_identity.
  - vm_compute. discriminate.
  - discriminate.
  - intros d it Hin Hit. vm_compute in Hin.
    destruct Hin as [<- | [<- | [<- | []]]]; simpl in Hit;
      try discriminate; injection Hit as <-; reflexivity.
Defined.

(** The two outcomes of the patcher (C7): an empty text raises, the
    document of two groups with its records gives a text. *)
Lemma update_raises_witness :
  (exists msg,
     XMLParser.update_xml_content []
       (display_data (XMLParser.parse_xml (two_groups "Bonjour" "Bonjour")))
     = Raise (ValueError msg))
  /\
  (exists cleaned_xml,
     XMLParser.update_xml_content (two_groups "Bonjour" "Bonjour")
       (display_data (map (edit "Dlg/Line_2" "Salut")
                        (XMLParser.parse_xml (two_groups "Bonjour" "Bonjour"))))
     = Return cleaned_xml).
Proof.
  split.
  - apply (proj1 (update_raises_only_on_missing_input [] _)). left. reflexivity.
  - apply (proj2 (update_raises_only_on_missing_input _ _)).
    + vm_compute. discriminate.
    + discriminate.
Defined.

(** C2 at a failing input.  The two trans-units of the document have the
    same source and target text and the distinct keys Dlg/Line_2 and
    Dlg/Line_3, which their groups carry.  The user edits the target of
    Dlg/Line_2 only.  The patcher leaves the trans-unit of Dlg/Line_2 as it
    was and writes the new text in the trans-unit of Dlg/Line_3, whose id 2
    is a part of the edited key. *)
Theorem edit_is_written_in_the_other_unit :
  let records := XMLParser.parse_xml (two_groups "Bonjour" "Bonjour") in
  map (fun r => (XMLParser.key r, XMLParser.trans_id r)) records
  = [(py "Dlg/Line_2", py "1"); (py "Dlg/Line_3", py "2")]
  /\ XMLParser.update_xml_content (two_groups "Bonjour" "Bonjour")
       (display_data (map (edit "Dlg/Line_2" "Salut") records))
     = Return (two_groups "Bonjour" "Salut")
  /\ two_groups "Bonjour" "Salut" <> two_groups "Salut" "Bonjour".
Proof.
  repeat split; try (vm_compute; reflexivity).
  vm_compute. discriminate.
Qed.

(** With the keys in the trans-units' own context blocks, the first
    approach of the patcher does what C2 says: the edit of K/One changes
    the target of its trans-unit and nothing else. *)
Lemma edit_with_unit_keys_is_targeted :
  let records := XMLParser.parse_xml (two_units "Bonjour" "Bonjour") in
  map XMLParser.key records = [py "K/One"; py "K/Two"]
  /\ XMLParser.update_xml_content (two_units "Bonjour" "Bonjour")
       (display_data (map (edit "K/One" "Salut") records))
     = Return (two_units "Salut" "Bonjour").
Proof. split; vm_compute; reflexivity. Qed.

(** C3 as stated fails.  The trans-unit has a context block of its own
    with a key and no key note; its record has the key of the block and
    the key note of the group, where an override of the whole context
    would leave the key note empty. *)
Lemma own_block_without_note_keeps_group_note :
  ParseSpec.own_block unit_with_key_only
  = Some (context "x-key" (py "Unit/Key"))
  /\ ParseSpec.block_note (context "x-key" (py "Unit/Key")) = None
  /\ map (fun r => (XMLParser.key r, XMLParser.note_text r))
       (XMLParser.parse_xml group_with_note)
     = [(py "Unit/Key", py "Speaker: Bob")]
  /\ XMLParser.unit_context (py "Group/Key") (py "Speaker: Bob") unit_with_key_only
     <> ParseSpec.unit_context_overriding (py "Group/Key") (py "Speaker: Bob")
          unit_with_key_only.
Proof.
  repeat split; try (vm_compute; reflexivity).
  vm_compute. discriminate.
Qed.

(** The defaults of a group need not be at the level of the group.  The
    group has no context block of its own: its defaults are the key and
    the key note of the block of its first trans-unit, and the second
    trans-unit, whose block has a key note only, gets the key of the
    first one. *)
Lemma first_block_of_a_group_gives_the_defaults :
  XMLParser.group_context group_without_block = (py "K/One", py "Speaker: Ann")
  /\ map (fun r => (XMLParser.trans_id r, XMLParser.key r, XMLParser.note_text r))
       (XMLParser.parse_xml group_without_block)
     = [(py "a", py "K/One", py "Speaker: Ann");
        (py "b", py "K/One", py "Speaker: Bob")].
Proof. split; vm_compute; reflexivity. Qed.

(** The field-by-field override (C3 as the code has it) on that group:
    the records of its two trans-units, each with the key and the key
    note of its own trans-unit. *)
Lemma unit_context_overrides_witness :
  exists per_group,
    XMLParser.parse_xml group_without_block = concat per_group
    /\ Forall2
         (fun grp recs =>
            Forall2
              (fun trans_unit r =>
                 ParseSpec.record_of grp trans_unit r
                 /\ match ParseSpec.own_block trans_unit with
                    | Some blk =>
                        XMLParser.key r
                        = ParseSpec.or_default (ParseSpec.block_key blk)
                            (fst (XMLParser.group_context grp))
                        /\ XMLParser.note_text r
                           = ParseSpec.or_default (ParseSpec.block_note blk)
                               (snd (XMLParser.group_context grp))
                    | None =>
                        XMLParser.key r = fst (XMLParser.group_context grp)
                        /\ XMLParser.note_text r = snd (XMLParser.group_context grp)
                    end)
              (ParseSpec.kept_of_group grp) recs)
         (Re.findall XMLParser.group_pattern group_without_block) per_group.
Proof.
  exact (proj1 (unit_context_overrides_field_by_field group_without_block)).
Defined.

(** C4 as stated fails.  The table has the columns Source, Comment and
    COTeam Comments; the comment column is Comment, not the column of the
    coteam, and the update carries the cell of Comment. *)
Lemma comment_column_is_not_the_coteam_column :
  DocumentParser.find_column "comment" (DocumentParser.dataframe two_comment_columns)
  = Some (py "Comment")
  /\ Spec.comment_column_preferring_coteam (DocumentParser.dataframe two_comment_columns)
     = Some (py "COTeam Comments")
  /\ map DocumentParser.comment
       (DocumentParser.updates
          (DocumentParser.match_content_with_mxliff [two_comment_columns] traveller_data))
     = [py "plain"].
Proof. repeat split; vm_compute; reflexivity. Qed.


(** C8 as stated fails.  Processing the second group raises at its
    trans-unit 3; the record of its trans-unit 2, appended before, stays
    in the result, the trans-units 3 and 4 have no record, and the groups
    before and after have theirs. *)
Lemma units_before_the_failure_are_kept :
  map ParseSpec.group_raises (Re.findall XMLParser.group_pattern three_groups)
  = [false; true; false]
  /\ map (fun r => (XMLParser.group_id r, XMLParser.trans_id r))
       (XMLParser.parse_xml three_groups)
     = [(py "g1", py "1"); (py "g2", py "2"); (py "g3", py "5")].
Proof. split; vm_compute; reflexivity. Qed.

(** The choice of the columns (C4 as the code has it) on the table of
    three columns: its rows are matched on Source and Comment. *)
Lemma comment_column_witness :
  DocumentParser.tables_loop (lookup_of (py "K1") (py "Hello there, traveller!"))
    [two_comment_columns] ([], 0)
  = DocumentParser.tables_loop (lookup_of (py "K1") (py "Hello there, traveller!")) []
      (DocumentParser.rows_loop (lookup_of (py "K1") (py "Hello there, traveller!"))
         (py "Source") (py "Comment")
         (DocumentParser.rows (DocumentParser.dataframe two_comment_columns)) ([], 0)).
Proof.
  apply (proj2 (proj2 comment_column_is_first_with_comment)).
  - vm_compute. reflexivity.
  - vm_compute. reflexivity.
  - discriminate.
  - discriminate.
Defined.

(** The cap (C6): with 500 updates counted, the table adds nothing. *)
Lemma updates_capped_witness :
  DocumentParser.rows_loop (lookup_of (py "K1") (py "Hello there, traveller!"))
    (py "Source") (py "Comment")
    (DocumentParser.rows (DocumentParser.dataframe two_comment_columns)) ([], 500)
  = ([], 500)
  /\ DocumentParser.tables_loop (lookup_of (py "K1") (py "Hello there, traveller!"))
       [two_comment_columns] ([], 500)
     = ([], 500).
Proof.
  apply (proj2 updates_capped_at_500). apply Nat.le_refl.
Defined.

(** The extraction (C8 as the code has it) on a text without a group. *)
Lemma extraction_without_groups_witness :
  XMLParser.parse_xml (py "<xliff><file></file></xliff>") = [].
Proof.
  apply (proj1 (extraction_continues_after_a_failing_group _)).
  vm_compute. reflexivity.
Defined.

End Examples.

(** ** The extraction: what every record satisfies *)

Section ExtractionInvariants.
Context {rt : Runtime}.

Import XMLParser ParseSpec.

Lemma group1_or_stripped (m : option Re.Match) (default : str) :
  strip default = default -> strip (group1_or m default) = group1_or m default.
Proof.
  intros Hd. destruct m as [m|]; simpl; [apply strip_idem | exact Hd].
Qed.

Lemma group_context_stripped (grp : str) :
  strip (fst (group_context grp)) = fst (group_context grp)
  /\ strip (snd (group_context grp)) = snd (group_context grp).
Proof.
  unfold group_context. destruct (Re.search context_group_pattern grp); simpl.
  - split; apply group1_or_stripped; reflexivity.
  - split; reflexivity.
Qed.

Lemma unit_context_stripped (group_key group_note_text trans_unit : str) :
  strip group_key = group_key -> strip group_note_text = group_note_text ->
  strip (fst (unit_context group_key group_note_text trans_unit))
  = fst (unit_context group_key group_note_text trans_unit)
  /\ strip (snd (unit_context group_key group_note_text trans_unit))
     = snd (unit_context group_key group_note_text trans_unit).
Proof.
  intros Hk Hn. unfold unit_context.
  destruct (Re.search context_group_pattern trans_unit); simpl.
  - split; apply group1_or_stripped; assumption.
  - split; assumption.
Qed.

(** What the loop body makes of a trans-unit, field by field. *)
Lemma unit_record_fields group_id group_key group_note_text trans_idx trans_unit n r :
  strip group_key = group_key -> strip group_note_text = group_note_text ->
  unit_record group_id group_key group_note_text trans_idx trans_unit n = Return r ->
  index r = n
  /\ original_target_text r = target_text r
  /\ is_menulabel r = contains (py "MenuLabel") (key r)
  /\ (note_text r = [] -> order_value r = 9999%Z)
  /\ Forall (fun field => strip field = field)
       [source_text r; target_text r; key r; note_text r; speaker r;
        speaker_target r; speaker_gender r; player_class r; player_gender r].
Proof.
  intros Hk Hn. unfold unit_record.
  destruct (unit_context_stripped group_key group_note_text trans_unit Hk Hn) as [Huk Hun].
  destruct (unit_context group_key group_note_text trans_unit) as [unit_key unit_note_text].
  simpl in Huk, Hun.
  assert (Hnil : strip [] = []) by reflexivity.
  destruct (truthy unit_note_text) eqn:Htruthy.
  - destruct (Utils.extract_order_value unit_note_text) as [order|e]; [|discriminate].
    intros [= <-]. simpl. repeat split.
    + intros ->. discriminate.
    + repeat constructor; try assumption; try (apply group1_or_stripped; reflexivity).
      * destruct (Re.search (field_pattern "speaking to:") unit_note_text).
        -- destruct (negb _); [apply strip_idem | apply group1_or_stripped; reflexivity].
        -- apply group1_or_stripped; reflexivity.
      * destruct (negb _) eqn:E; [|apply group1_or_stripped; reflexivity].
        apply group1_or_stripped, group1_or_stripped; reflexivity.
  - intros [= <-]. simpl. repeat split.
    repeat constructor; try assumption; apply group1_or_stripped; reflexivity.
Qed.

Lemma record_of_fields grp trans_unit r :
  record_of grp trans_unit r ->
  original_target_text r = target_text r
  /\ is_menulabel r = contains (py "MenuLabel") (key r)
  /\ (note_text r = [] -> order_value r = 9999%Z)
  /\ Forall (fun field => strip field = field)
       [source_text r; target_text r; key r; note_text r; speaker r;
        speaker_target r; speaker_gender r; player_class r; player_gender r].
Proof.
  intros (gid & i & n & Hrec).
  destruct (group_context_stripped grp) as [Hk Hn].
  apply (unit_record_fields _ _ _ _ _ _ _ Hk Hn Hrec).
Qed.

Lemma parse_xml_records (xml_content : str) (r : record) :
  In r (parse_xml xml_content) ->
  exists grp trans_unit,
    In grp (Re.findall group_pattern xml_content)
    /\ In trans_unit (group_units grp) /\ record_of grp trans_unit r.
Proof.
  intros Hin. unfold parse_xml in Hin.
  destruct (groups_loop_structure (Re.findall group_pattern xml_content) 0 [])
    as (per_group & Heq & Hall).
  rewrite Heq in Hin. simpl in Hin.
  apply in_concat in Hin as (recs & Hrecs & Hr).
  destruct (Forall2_in_right _ _ _ _ Hall Hrecs) as (grp & Hgrp & Hkept).
  destruct (Forall2_in_right _ _ _ _ Hkept Hr) as (tu & Htu & Hrec).
  exists grp, tu. repeat split; try assumption.
  eapply kept_units_incl, Htu.
Qed.

(** X1.  Every record of the extraction has its target text as its
    original target text, is flagged as a menu label exactly when its key
    contains MenuLabel, has the order 9999 when it has no note, and has
    its source, target, key, note, speaker, speaker target, speaker gender,
    player class and player gender free of leading and trailing white
    space. *)
Theorem extracted_records_are_clean (xml_content : str) :
  Forall (fun r =>
            original_target_text r = target_text r
            /\ is_menulabel r = contains (py "MenuLabel") (key r)
            /\ (note_text r = [] -> order_value r = 9999%Z)
            /\ Forall (fun field => strip field = field)
                 [source_text r; target_text r; key r; note_text r; speaker r;
                  speaker_target r; speaker_gender r; player_class r;
                  player_gender r])
         (parse_xml xml_content).
Proof.
  apply Forall_forall. intros r Hin.
  destruct (parse_xml_records xml_content r Hin) as (grp & tu & _ & _ & Hrec).
  eapply record_of_fields, Hrec.
Qed.

Lemma units_loop_indices group_id group_key group_note_text trans_units :
  forall trans_idx processed_data,
    map index processed_data = seq 0 (List.length processed_data) ->
    let result :=
      fst (units_loop group_id group_key group_note_text trans_units trans_idx
             processed_data) in
    map index result = seq 0 (List.length result).
Proof.
  induction trans_units as [|tu rest IH]; intros trans_idx processed_data Hacc;
    [exact Hacc|].
  simpl.
  destruct (unit_record group_id group_key group_note_text trans_idx tu
              (List.length processed_data)) as [r|e] eqn:Hrec; [|exact Hacc].
  apply IH. rewrite map_app, length_app, seq_app, Hacc. simpl. f_equal. f_equal.
  unfold unit_record in Hrec.
  destruct (unit_context group_key group_note_text tu) as [unit_key unit_note_text].
  destruct (truthy unit_note_text).
  - destruct (Utils.extract_order_value unit_note_text); [|discriminate].
    now injection Hrec as <-.
  - now injection Hrec as <-.
Qed.

Lemma groups_loop_indices groups :
  forall group_idx processed_data,
    map index processed_data = seq 0 (List.length processed_data) ->
    map index (groups_loop groups group_idx processed_data)
    = seq 0 (List.length (groups_loop groups group_idx processed_data)).
Proof.
  induction groups as [|grp rest IH]; intros group_idx processed_data Hacc;
    [exact Hacc|].
  simpl. apply IH. unfold process_group.
  destruct (group_context grp) as [group_key group_note_text].
  apply units_loop_indices, Hacc.
Qed.

(** X2.  The records of the extraction are numbered 0, 1, 2, ... in the
    order of the list, across the groups and also after a group that
    raised. *)
Theorem extracted_records_are_numbered (xml_content : str) :
  map index (parse_xml xml_content) = seq 0 (List.length (parse_xml xml_content)).
Proof. apply groups_loop_indices. reflexivity. Qed.

Lemma kept_units_length group_key group_note_text trans_units :
  List.length (kept_units group_key group_note_text trans_units)
  <= List.length trans_units.
Proof.
  induction trans_units as [|tu rest IH]; simpl; [lia|].
  destruct (unit_raises _ _ tu); simpl; lia.
Qed.

(** X3.  The extraction returns one record for each trans-unit that
    comes before the first raising one of its group: never more records
    than the groups have trans-units, and exactly as many when no group
    raises. *)
Theorem extracted_records_count (xml_content : str) :
  let groups := Re.findall group_pattern xml_content in
  List.length (parse_xml xml_content)
  = list_sum (map (fun grp => List.length (kept_of_group grp)) groups)
  /\ List.length (parse_xml xml_content)
     <= list_sum (map (fun grp => List.length (group_units grp)) groups)
  /\ (forallb (fun grp => negb (group_raises grp)) groups = true ->
      List.length (parse_xml xml_content)
      = list_sum (map (fun grp => List.length (group_units grp)) groups)).
Proof.
  intros groups. unfold parse_xml. fold groups.
  destruct (groups_loop_structure groups 0 []) as (per_group & -> & Hall).
  simpl app.
  assert (Hlen : List.length (concat per_group)
                 = list_sum (map (fun grp => List.length (kept_of_group grp)) groups)).
  { clear -Hall. induction Hall as [|grp recs groups per_group Hrecs _ IH]; [reflexivity|].
    simpl. rewrite length_app, IH. f_equal.
    symmetry. eapply Forall2_length, Hrecs. }
  rewrite Hlen. split; [reflexivity|]. split.
  - clear. induction groups as [|grp rest IH]; simpl; [lia|].
    pose proof (kept_units_length (fst (group_context grp)) (snd (group_context grp))
                  (group_units grp)) as H.
    unfold kept_of_group at 1. lia.
  - clear. intros Hok. induction groups as [|grp rest IH]; [reflexivity|].
    simpl in Hok |- *. apply andb_true_iff in Hok as [Hgrp Hrest].
    rewrite (IH Hrest). f_equal.
    unfold kept_of_group. rewrite kept_units_all; [reflexivity|].
    apply negb_true_iff in Hgrp. exact Hgrp.
Qed.

(** X4.  Extraction, then patching with the records as they are: any
    non-empty list of entries whose items are records of the extraction
    of the text gives the text back. *)
Theorem patch_of_extracted_records_is_identity
    (xml_content : str) (processed_data : list entry) :
  xml_content <> [] ->
  processed_data <> [] ->
  (forall d it, In d processed_data -> item d = Some it ->
                In it (parse_xml xml_content)) ->
  update_xml_content xml_content processed_data = Return xml_content.
Proof.
  intros Hxml Hdata Hitems.
  assert (Hsame : forall d it, In d processed_data -> item d = Some it ->
                               target_text it = original_target_text it).
  { intros d it Hd Hit. specialize (Hitems d it Hd Hit).
    destruct (parse_xml_records xml_content it Hitems) as (grp & tu & _ & _ & Hrec).
    symmetry. apply (record_of_fields grp tu it Hrec). }
  unfold update_xml_content.
  destruct xml_content as [|c xml]; [contradiction|]. simpl negb. cbv iota.
  destruct processed_data as [|d ds]; [contradiction|].
  pose proof (collect_unchanged (d :: ds) Hsame ([], [])) as Hsnd.
  destruct (fold_left collect (d :: ds) ([], [])) as [ktt edited].
  simpl in Hsnd. subst edited. reflexivity.
Qed.

End ExtractionInvariants.

(** ** Texts in which a pattern cannot match *)

Section LiteralPrefix.

Lemma contains_cons_false (l : str) (c : N) (s : str) :
  contains l (c :: s) = false -> startswith l (c :: s) = false /\ contains l s = false.
Proof. simpl. intros H. apply orb_false_iff in H. exact H. Qed.

Lemma contains_nil_false (l : str) : contains l [] = false -> startswith l [] = false.
Proof. simpl. intros H. apply orb_false_iff in H. apply H. Qed.

Lemma startswith_app (l g post : str) :
  startswith l g = true -> startswith l (g ++ post) = true.
Proof.
  revert g. induction l as [|x l IH]; intros [|y g] H; simpl in *;
    try reflexivity; try discriminate.
  apply andb_true_iff in H as [-> H]. simpl. now apply IH.
Qed.

Lemma contains_app_right (l g post : str) :
  contains l g = true -> contains l (g ++ post) = true.
Proof.
  induction g as [|y g IH]; simpl; intros H.
  - rewrite orb_false_r in H. destruct l; [|discriminate].
    destruct post; reflexivity.
  - apply orb_true_iff in H as [H | H].
    + change (y :: g ++ post) with ((y :: g) ++ post).
      now rewrite (startswith_app _ _ _ H).
    + rewrite (IH H). apply orb_true_r.
Qed.

Lemma contains_app_left (l pre s : str) :
  contains l s = true -> contains l (pre ++ s) = true.
Proof.
  intros H. induction pre as [|y pre IH]; [exact H|].
  simpl. rewrite IH. apply orb_true_r.
Qed.

Lemma contains_substring (l pre g post : str) :
  contains l g = true -> contains l (pre ++ g ++ post) = true.
Proof. intros H. now apply contains_app_left, contains_app_right. Qed.

Lemma run_literal_prefix (l : str) (r : Re.regex) :
  forall s pos res,
    Re.run (map Re.Chr l ++ r) s pos = Some res -> startswith l s = true.
Proof.
  induction l as [|x l IH]; intros s pos res H; [reflexivity|].
  simpl in H. destruct s as [|y s]; [discriminate|].
  destruct (N.eqb_spec y x) as [-> | Hne]; [|discriminate].
  simpl. rewrite N.eqb_refl. eapply IH, H.
Qed.

Lemma run_open_literal_prefix (l : str) (r : Re.regex) :
  forall s pos res,
    Re.run (Re.Open :: map Re.Chr l ++ r) s pos = Some res -> startswith l s = true.
Proof.
  intros s pos res H. simpl in H.
  destruct (Re.run (map Re.Chr l ++ r) s pos) as [res'|] eqn:E; [|discriminate].
  eapply run_literal_prefix, E.
Qed.

Variable r : Re.regex.
Variable l : str.
Hypothesis r_needs_l :
  forall s pos res, Re.run r s pos = Some res -> startswith l s = true.

Lemma run_without_literal (s : str) (pos : nat) :
  startswith l s = false -> Re.run r s pos = None.
Proof.
  intros H. destruct (Re.run r s pos) as [res|] eqn:E; [|reflexivity].
  apply r_needs_l in E. congruence.
Qed.

Lemma finditer_without_literal (s : str) :
  contains l s = false -> forall skip, Re.finditer_go r skip s = [].
Proof.
  induction s as [|c s IH]; intros Hno skip; [reflexivity|].
  apply contains_cons_false in Hno as [Hhere Hrest].
  simpl. destruct skip as [|k]; [|now apply IH].
  rewrite (run_without_literal _ _ Hhere). now apply IH.
Qed.

Lemma findall_without_literal (s : str) :
  contains l s = false -> Re.findall r s = [].
Proof.
  intros H. unfold Re.findall. now rewrite finditer_without_literal.
Qed.

Lemma sub_without_literal (repl : Re.Match -> str) (s : str) :
  contains l s = false -> Re.sub r repl s = s.
Proof.
  unfold Re.sub. induction s as [|c s IH]; intros Hno; [reflexivity|].
  apply contains_cons_false in Hno as [Hhere Hrest].
  simpl. rewrite (run_without_literal _ _ Hhere). now rewrite IH.
Qed.

End LiteralPrefix.

(** ** What a match is made of *)

Lemma slice_substring (s : str) (a b : nat) :
  exists pre post, s = pre ++ Re.slice s a b ++ post.
Proof.
  exists (firstn a s), (skipn (b - a) (skipn a s)). unfold Re.slice.
  now rewrite firstn_skipn, firstn_skipn.
Qed.

Lemma groups_of_substring (s : str) (marks : list nat) (j : nat) :
  exists pre post, s = pre ++ nth j (Re.groups_of s marks) [] ++ post.
Proof.
  assert (H : forall n marks j, List.length marks <= n ->
                exists pre post, s = pre ++ nth j (Re.groups_of s marks) [] ++ post).
  { induction n as [|n IH]; intros [|a [|b ms]] k Hlen; simpl in Hlen;
      try (exists [], s; now destruct k); try lia.
    simpl. destruct k as [|k]; [apply slice_substring|]. apply IH. lia. }
  eapply H, Nat.le_refl.
Qed.

Lemma group_substring (s : str) (res : Re.result) (i : nat) :
  exists pre post, s = pre ++ Re.group (Re.mk_match s res) i ++ post.
Proof.
  destruct i as [|j]; simpl.
  - exists [], (skipn (fst res) s). simpl. now rewrite firstn_skipn.
  - apply groups_of_substring.
Qed.

Lemma finditer_substring (r : Re.regex) (s : str) :
  forall skip m i,
    In m (Re.finditer_go r skip s) -> exists pre post, s = pre ++ Re.group m i ++ post.
Proof.
  induction s as [|c s IH]; intros skip m i Hin; [contradiction|].
  assert (Htail : forall skip', In m (Re.finditer_go r skip' s) ->
                                exists pre post, c :: s = pre ++ Re.group m i ++ post).
  { intros skip' H. destruct (IH _ _ i H) as (pre & post & Heq).
    exists (c :: pre), post. simpl. now f_equal. }
  simpl in Hin. destruct skip as [|k]; [|eauto].
  destruct (Re.run r (c :: s) 0) as [[[|n] marks]|]; eauto.
  destruct Hin as [<- | Hin]; [apply group_substring | eauto].
Qed.

(** Every text that [findall] returns is a part of the text searched. *)
Lemma findall_substring (r : Re.regex) (s g : str) :
  In g (Re.findall r s) -> exists pre post, s = pre ++ g ++ post.
Proof.
  unfold Re.findall. intros Hin. apply in_map_iff in Hin as (m & <- & Hm).
  eapply finditer_substring, Hm.
Qed.

(** ** The patcher on a text without trans-units *)

Section PatcherWithoutUnits.
Context {rt : Runtime}.

Import XMLParser.

Lemma trans_units_need_their_tag (s : str) :
  contains (py "<trans-unit") s = false -> Re.findall trans_unit_pattern_g s = [].
Proof.
  apply findall_without_literal. intros s' pos res.
  apply (run_open_literal_prefix (py "<trans-unit")).
Qed.

Lemma second_pass_without_units edited_translations missing_keys groups :
  (forall grp, In grp groups -> Re.findall trans_unit_pattern_g grp = []) ->
  forall j st, second_pass edited_translations missing_keys groups j st = st.
Proof.
  induction groups as [|grp rest IH]; intros Hnone j [updated_xml updated_keys];
    [reflexivity|].
  simpl. rewrite (Hnone grp (or_introl eq_refl)). simpl.
  apply IH. intros g Hg. apply Hnone. now right.
Qed.

(** X5.  A text that contains neither [<trans-unit] nor
    [<!-- XMLUPDATE_] comes back from the patcher as it is, whatever the
    edits of the records: edits that find no trans-unit change nothing. *)
Theorem patch_without_trans_units_is_identity
    (original_xml_content : str) (processed_data : list entry) :
  original_xml_content <> [] ->
  processed_data <> [] ->
  contains (py "<trans-unit") original_xml_content = false ->
  contains (py "<!-- XMLUPDATE_") original_xml_content = false ->
  update_xml_content original_xml_content processed_data
  = Return original_xml_content.
Proof.
  intros Hxml Hdata Hunits Hmarkers. unfold update_xml_content.
  destruct original_xml_content as [|c xml] eqn:Exml; [contradiction|].
  rewrite <- Exml in *. replace (truthy original_xml_content) with true by now rewrite Exml.
  simpl negb. cbv iota.
  destruct processed_data as [|d ds]; [contradiction|].
  destruct (fold_left collect (d :: ds) ([], [])) as [ktt edited].
  destruct edited as [|e edited]; [reflexivity|].
  rewrite (trans_units_need_their_tag _ Hunits). simpl first_pass. cbv iota beta.
  assert (Hclean : Re.sub marker_pattern (fun _ => []) original_xml_content
                   = original_xml_content).
  { apply (sub_without_literal marker_pattern (py "<!-- XMLUPDATE_")); [|exact Hmarkers].
    intros s pos res. apply (run_literal_prefix (py "<!-- XMLUPDATE_")). }
  destruct (keys_missing (e :: edited) []) as [|k ks]; [now rewrite Hclean|].
  rewrite second_pass_without_units; [now rewrite Hclean|].
  intros grp Hgrp. apply trans_units_need_their_tag.
  apply findall_substring in Hgrp as (pre & post & Heq).
  destruct (contains (py "<trans-unit") grp) eqn:E; [|reflexivity].
  rewrite Heq in Hunits. rewrite (contains_substring _ pre grp post E) in Hunits.
  discriminate.
Qed.

End PatcherWithoutUnits.

(** ** Text cleaning: the shape of the result *)

Section CleaningShape.

Import DocumentParser Norm.

Lemma unquote_blanked (c : N) : unquote c = if blanked c then 32%N else c.
Proof. reflexivity. Qed.

Lemma unquote_fix_iff (c : N) : unquote c = c <-> blanked c = false.
Proof.
  rewrite unquote_blanked. destruct (blanked c) eqn:E; split; try congruence.
  intros <-. discriminate.
Qed.

Lemma lstrip_length (s : str) : List.length (lstrip s) <= List.length s.
Proof. induction s as [|c s IH]; simpl; [lia|]. destruct (is_space c); simpl; lia. Qed.

Lemma rstrip_length (s : str) : List.length (rstrip s) <= List.length s.
Proof.
  induction s as [|c s IH]; simpl; [lia|].
  destruct (rstrip s); [destruct (is_space c)|]; simpl in *; lia.
Qed.

Lemma strip_length (s : str) : List.length (strip s) <= List.length s.
Proof.
  unfold strip. etransitivity; [apply rstrip_length | apply lstrip_length].
Qed.

Lemma collapse_length (s : str) (b : bool) :
  List.length (collapse b s) <= List.length s.
Proof.
  revert b. induction s as [|c s IH]; intros b; simpl; [lia|].
  pose proof (IH true) as Ht. pose proof (IH false) as Hf.
  destruct (is_space c); [destruct b|]; simpl; lia.
Qed.

Lemma filter_lstrip (keep : N -> bool) (s : str) :
  (forall c, is_space c = true -> keep c = false) ->
  filter keep (lstrip s) = filter keep s.
Proof.
  intros Hkeep. induction s as [|c s IH]; [reflexivity|].
  cbn [lstrip]. destruct (is_space c) eqn:E; [|reflexivity].
  cbn [filter]. now rewrite (Hkeep c E).
Qed.

Lemma filter_rstrip (keep : N -> bool) (s : str) :
  (forall c, is_space c = true -> keep c = false) ->
  filter keep (rstrip s) = filter keep s.
Proof.
  intros Hkeep. induction s as [|c s IH]; [reflexivity|].
  cbn [rstrip]. destruct (rstrip s) as [|x r] eqn:E.
  - cbn [filter] in *. rewrite <- IH.
    destruct (is_space c) eqn:Hc; [|reflexivity].
    now rewrite (Hkeep c Hc).
  - cbn [filter] in *. now rewrite IH.
Qed.

Lemma filter_strip (keep : N -> bool) (s : str) :
  (forall c, is_space c = true -> keep c = false) ->
  filter keep (strip s) = filter keep s.
Proof.
  intros Hkeep. unfold strip. now rewrite filter_rstrip, filter_lstrip.
Qed.

Lemma glyphs_collapse (s : str) (b : bool) :
  filter is_glyph (collapse b s) = filter is_glyph s.
Proof.
  revert b. induction s as [|c s IH]; intros b; [reflexivity|].
  cbn [collapse filter]. unfold is_glyph at 2.
  destruct (is_space c) eqn:E; cbn [negb].
  - destruct b; [apply IH|]. cbn [filter]. apply IH.
  - cbn [filter]. unfold is_glyph at 1. rewrite E. cbn [negb]. now rewrite IH.
Qed.

Lemma glyphs_unquote (s : str) :
  filter is_glyph (map unquote s)
  = filter (fun c => is_glyph c && negb (blanked c)) s.
Proof.
  induction s as [|c s IH]; [reflexivity|]. cbn [map filter]. rewrite IH.
  rewrite unquote_blanked. destruct (blanked c) eqn:E; cbn [negb].
  - now rewrite andb_false_r.
  - now rewrite andb_true_r.
Qed.

Lemma space_is_no_glyph (c : N) : is_space c = true -> is_glyph c = false.
Proof. unfold is_glyph. now intros ->. Qed.

Lemma space_is_not_kept (c : N) :
  is_space c = true -> is_glyph c && negb (blanked c) = false.
Proof. unfold is_glyph. now intros ->. Qed.

Lemma clean_is_normal (s : str) : normal (_clean_text_for_comparison (Some s)).
Proof.
  rewrite clean_unfold. destruct (strip s) as [|c t].
  { repeat split. constructor. }
  set (u := map unquote (c :: t)). repeat split.
  - apply strip_idem.
  - unfold strip. apply single_spaced_rstrip.
    eapply single_spaced_lstrip, (proj2 (collapse_single_spaced u)).
  - unfold strip. apply Forall_rstrip, Forall_lstrip, Forall_collapse; [reflexivity|].
    unfold u. apply Forall_forall. intros x Hx.
    apply in_map_iff in Hx as (y & <- & _).
    apply unquote_fix_iff, unquote_fixed.
Qed.

(** X6.  The result of [_clean_text_for_comparison] is in normal form (no
    white space at either end, every white space a single ASCII space, no
    control character, DEL or low quote), and the texts that the cleaning
    leaves as they are, are exactly the texts in normal form. *)
Theorem clean_text_normal_form :
  (forall s, normal (_clean_text_for_comparison (Some s)))
  /\ (forall t, _clean_text_for_comparison (Some t) = t <-> normal t).
Proof.
  split; [apply clean_is_normal|].
  intros t. split.
  - intros <-. apply clean_is_normal.
  - intros (Hstrip & Hsp & Hq). apply clean_of_normal; try assumption.
    eapply Forall_impl; [|exact Hq]. intros c. apply unquote_fix_iff.
Qed.

(** X7.  The cleaning changes white space, control characters, DEL and
    the low quotes only: the characters of the result other than spaces
    are, in order, the characters of the text that are neither white space
    nor turned into a space.  Curly quotes, for one, stay as they are. *)
Theorem clean_text_keeps_other_characters (s : str) :
  filter (fun c => negb (is_space c)) (_clean_text_for_comparison (Some s))
  = filter (fun c => negb (is_space c) && negb (blanked c)) s.
Proof.
  change (fun c => negb (is_space c)) with is_glyph.
  change (fun c => negb (is_space c) && negb (blanked c))
    with (fun c => is_glyph c && negb (blanked c)).
  rewrite clean_unfold.
  rewrite <- (filter_strip _ s space_is_not_kept).
  destruct (strip s) as [|c t]; [reflexivity|].
  now rewrite (filter_strip _ _ space_is_no_glyph), glyphs_collapse, glyphs_unquote.
Qed.

(** X8.  The cleaned text is never longer than the text. *)
Theorem clean_text_does_not_grow (s : str) :
  List.length (_clean_text_for_comparison (Some s)) <= List.length s.
Proof.
  rewrite clean_unfold. pose proof (strip_length s) as Hs.
  destruct (strip s) as [|c t]; [simpl; lia|].
  etransitivity; [apply strip_length|].
  etransitivity; [apply collapse_length|].
  now rewrite length_map.
Qed.

End CleaningShape.

(** ** The basic text cleaning *)

Section BasicCleaning.

Import DocumentParser Norm.

Lemma replace_one_char (a b : N) (s : str) :
  replace s [a] [b] = map (fun c => if (c =? a)%N then b else c) s.
Proof.
  unfold replace. induction s as [|c s IH]; [reflexivity|].
  cbn [replace_go startswith map List.length Nat.sub app].
  rewrite andb_true_r, (N.eqb_sym a c).
  destruct (c =? a)%N; cbn [app]; now rewrite IH.
Qed.

Lemma flat_map_one {A B} (f : A -> B) (l : list A) :
  flat_map (fun x => [f x]) l = map f l.
Proof. induction l as [|x l IH]; [reflexivity|]. simpl. now rewrite IH. Qed.

Lemma clean_text_unfold (s : str) :
  _clean_text (Some s) = strip (collapse false (map unbreak s)).
Proof.
  unfold _clean_text. change (py " ") with [32%N]. rewrite replace_one_char.
  unfold Re.sub. rewrite (proj2 (sub_spaces _)). do 2 f_equal.
  set (blank := fun c : N =>
                  if (32 <=? c)%N || contains [c] [10; 13; 9]%N then c else 32%N).
  transitivity (map blank (map (fun c => if (c =? 160)%N then 32%N else c) s)).
  - rewrite <- (flat_map_one blank). apply flat_map_ext. intros c. unfold blank.
    destruct (_ || _); reflexivity.
  - rewrite map_map. apply map_ext. intros c. unfold unbreak, blank.
    destruct (c =? 160)%N; reflexivity.
Qed.

Lemma unbreak_fixed (c : N) : unbreak (unbreak c) = unbreak c.
Proof.
  destruct (N.eqb_spec c 160) as [-> | Hne]; [reflexivity|].
  apply N.eqb_neq in Hne. unfold unbreak. rewrite Hne.
  destruct ((32 <=? c)%N || contains [c] [10; 13; 9]%N) eqn:E.
  - now rewrite Hne, E.
  - reflexivity.
Qed.

Lemma single_spaced_spaces (s : str) :
  forall b, single_spaced b s = true ->
            Forall (fun c => is_space c = true -> c = 32%N) s.
Proof.
  induction s as [|c s IH]; intros b H; [constructor|].
  cbn in H. destruct (is_space c) eqn:Hc.
  - apply andb_true_iff in H as [H Hs]. apply andb_true_iff in H as [H32 _].
    apply N.eqb_eq in H32. constructor; [auto | eapply IH, Hs].
  - constructor; [congruence | eapply IH, H].
Qed.

Lemma unbreak_fixed_visible (c : N) :
  unbreak c = c -> (is_space c = true -> c = 32%N) -> (32 <= c)%N /\ c <> 160%N.
Proof.
  unfold unbreak. intros Hfix Hsp.
  destruct (N.eqb_spec c 160) as [Heq | Hne].
  - rewrite Heq in Hsp. discriminate (Hsp eq_refl).
  - split; [|exact Hne].
    destruct (N.leb_spec 32 c) as [Hle | Hlt]; [exact Hle|].
    cbn [orb] in Hfix.
    destruct (contains [c] [10; 13; 9]%N) eqn:Hin; [|subst c; discriminate].
    assert (Hspace : is_space c = true).
    { cbn in Hin. rewrite !andb_true_r, !orb_false_r in Hin.
      repeat (apply orb_true_iff in Hin as [Hin | Hin]);
        apply N.eqb_eq in Hin; subst c; reflexivity. }
    rewrite (Hsp Hspace). discriminate.
Qed.

Lemma clean_text_shape (s : str) :
  strip (_clean_text (Some s)) = _clean_text (Some s)
  /\ single_spaced false (_clean_text (Some s)) = true
  /\ Forall (fun c => unbreak c = c) (_clean_text (Some s)).
Proof.
  rewrite clean_text_unfold. repeat split.
  - apply strip_idem.
  - unfold strip. apply single_spaced_rstrip.
    eapply single_spaced_lstrip, (proj2 (collapse_single_spaced _)).
  - unfold strip. apply Forall_rstrip, Forall_lstrip, Forall_collapse; [reflexivity|].
    apply Forall_forall. intros x Hx.
    apply in_map_iff in Hx as (y & <- & _). apply unbreak_fixed.
Qed.

(** X9.  [_clean_text] is idempotent; its result has no white space at
    either end, has single ASCII spaces as its only white space, and has
    no control character and no non-breaking space; and it makes the
    empty string of [None]. *)
Theorem basic_clean_text_is_idempotent :
  (forall s : str, _clean_text (Some (_clean_text (Some s))) = _clean_text (Some s))
  /\ (forall s : str,
        strip (_clean_text (Some s)) = _clean_text (Some s)
        /\ single_spaced false (_clean_text (Some s)) = true
        /\ Forall (fun c => (32 <= c)%N /\ c <> 160%N) (_clean_text (Some s)))
  /\ _clean_text None = [].
Proof.
  split; [|split; [|reflexivity]].
  - intros s. destruct (clean_text_shape s) as (Hstrip & Hsp & Hfix).
    rewrite (clean_text_unfold (_clean_text (Some s))).
    rewrite (map_unquote_fix_gen _ _ Hfix), (single_spaced_fix _ _ Hsp). exact Hstrip.
  - intros s. destruct (clean_text_shape s) as (Hstrip & Hsp & Hfix).
    repeat split; try assumption.
    pose proof (single_spaced_spaces _ _ Hsp) as Hspaces.
    rewrite Forall_forall in *. intros c Hc.
    apply unbreak_fixed_visible; auto.
Qed.

End BasicCleaning.

(** ** The matcher: the lookup and where the updates come from *)

Lemma dict_get_in {V} (d : dict V) (k : str) (v : V) :
  dict_get d k = Some v -> In (k, v) d.
Proof.
  induction d as [|[k' v'] d IH]; simpl; [discriminate|].
  destruct (eqb k' k) eqn:E.
  - intros [= ->]. apply eqb_eq in E. subst. now left.
  - intros H. right. auto.
Qed.

Lemma dict_set_in {V} (d : dict V) (k : str) (v : V) (k' : str) (v' : V) :
  In (k', v') (dict_set d k v) -> (k' = k /\ v' = v) \/ In (k', v') d.
Proof.
  induction d as [|[k0 v0] d IH]; simpl.
  - intros [[= <- <-] | []]. now left.
  - destruct (eqb k0 k) eqn:E; simpl.
    + intros [[= <- <-] | H]; [|now right; right].
      apply eqb_eq in E. now left.
    + intros [H | H]; [now right; left|].
      destruct (IH H) as [H' | H']; [now left | now right; right].
Qed.

Lemma dict_get_set_same {V} (d : dict V) (k : str) (v : V) :
  dict_get (dict_set d k v) k = Some v.
Proof.
  induction d as [|[k0 v0] d IH]; simpl; [now rewrite eqb_refl|].
  destruct (eqb k0 k) eqn:E; simpl; now rewrite E.
Qed.


Section MatcherLookup.
Context {rt : Runtime}.

Import DocumentParser Spec.

Lemma add_lookup_entries (mxliff_data : list XMLParser.entry) :
  forall done todo mxliff_lookup,
    mxliff_data = done ++ todo ->
    (forall k v, In (k, v) mxliff_lookup -> entry_of_record mxliff_data k v) ->
    forall k v, In (k, v) (fold_left add_lookup todo mxliff_lookup) ->
                entry_of_record mxliff_data k v.
Proof.
  intros done todo. revert done.
  induction todo as [|d todo IH]; intros done mxliff_lookup Hsplit Hinv; [exact Hinv|].
  simpl. apply (IH (done ++ [d])); [now rewrite <- app_assoc|].
  intros k v Hin. unfold add_lookup in Hin.
  destruct (XMLParser.is_header d) eqn:Hhead; cbn [negb] in Hin; [auto|].
  destruct (XMLParser.item d) as [it|] eqn:Hit; [|auto].
  destruct (truthy (strip (XMLParser.source_text it))); [|auto].
  destruct (Nat.leb_spec 10
              (List.length (preprocess_text (strip (XMLParser.source_text it)))))
    as [Hlen|Hlen]; [|auto].
  apply dict_set_in in Hin as [[-> ->] | Hin]; [|auto].
  exists d, it. repeat split; try assumption.
  rewrite Hsplit. apply in_or_app. right. now left.
Qed.

Lemma lookup_entries (mxliff_data : list XMLParser.entry) (k : str) (v : lookup_value) :
  In (k, v) (fold_left add_lookup mxliff_data []) -> entry_of_record mxliff_data k v.
Proof.
  apply (add_lookup_entries mxliff_data [] mxliff_data []); [reflexivity|].
  intros k' v' [].
Qed.

Lemma fuzzy_search_short (mxliff_lookup : dict lookup_value) (clean_source : str) :
  List.length clean_source < 10 ->
  fuzzy_search mxliff_lookup clean_source = (None, 0.8%Q).
Proof.
  intros Hshort. unfold fuzzy_search.
  generalize (@None lookup_value, 0.8%Q).
  induction mxliff_lookup as [|[src d] rest IH]; intros st; [reflexivity|].
  cbn [fold_left].
  assert (Hstep : fuzzy_step clean_source st (src, d) = st).
  { destruct st as [best best_ratio]. unfold fuzzy_step.
    destruct (Nat.ltb_spec (List.length clean_source) 10); [reflexivity | lia]. }
  rewrite Hstep. apply IH.
Qed.

(** X10.  A row whose cleaned source text has fewer than 10 characters
    gives no update, exact or fuzzy, whatever the records: the lookup
    holds cleaned source texts of 10 characters or more only. *)
Theorem short_source_never_matches
    (mxliff_data : list XMLParser.entry) (source_text comment_text : str) :
  List.length (preprocess_text source_text) < 10 ->
  match_row (fold_left add_lookup mxliff_data []) source_text comment_text = None.
Proof.
  intros Hshort. unfold match_row.
  destruct (dict_get _ (preprocess_text source_text)) as [v|] eqn:Hget.
  - apply dict_get_in, lookup_entries in Hget.
    destruct Hget as (d & it & _ & _ & _ & _ & _ & _ & Hlen). lia.
  - now rewrite fuzzy_search_short.
Qed.




Lemma match_row_of_record (mxliff_data : list XMLParser.entry)
    (source_text comment_text : str) (u : update) :
  match_row (fold_left add_lookup mxliff_data []) source_text comment_text = Some u ->
  comment u = comment_text
  /\ exists k v,
       entry_of_record mxliff_data k v
       /\ key u = lookup_key v
       /\ ((match_type u = py "exact" /\ DocumentParser.source_text u = k)
           \/ (match_type u = py "fuzzy"
               /\ DocumentParser.source_text u = original_text v)).
Proof.
  unfold match_row.
  destruct (dict_get _ (preprocess_text source_text)) as [v|] eqn:Hget.
  - intros [= <-]. simpl. split; [reflexivity|].
    exists (preprocess_text source_text), v. repeat split; auto.
    apply lookup_entries, dict_get_in, Hget.
  - pose proof (fuzzy_search_ok (fold_left add_lookup mxliff_data [])
                  (preprocess_text source_text)) as Hok.
    destruct (fuzzy_search _ _) as [[best|] best_ratio]; [|discriminate].
    intros [= <-]. simpl. split; [reflexivity|].
    unfold fuzzy_state_ok in Hok. simpl in Hok.
    destruct Hok as (_ & src & Hin & _ & _).
    exists src, best. repeat split; auto. now apply lookup_entries.
Qed.

Lemma rows_loop_of_records (mxliff_data : list XMLParser.entry)
    (source_col comments_col : str) (rws : list (str -> str)) :
  forall st,
    Forall (update_of_record mxliff_data) (fst st) ->
    Forall (update_of_record mxliff_data)
      (fst (rows_loop (fold_left add_lookup mxliff_data []) source_col comments_col
              rws st)).
Proof.
  induction rws as [|row rest IH]; intros [upd n] Hinv; [exact Hinv|].
  rewrite rows_loop_cons.
  destruct (MAX_MATCHES <=? n); [exact Hinv|].
  destruct (truthy (strip (row source_col))) eqn:Hs; simpl negb; cbn [orb];
    [|now apply IH].
  destruct (truthy (strip (row comments_col))) eqn:Hc; simpl negb; cbn [orb];
    [|now apply IH].
  destruct (match_row _ _ _) as [u|] eqn:Hrow; [|now apply IH].
  apply IH. simpl. apply Forall_app. split; [exact Hinv|].
  constructor; [|constructor].
  apply match_row_of_record in Hrow as [Hcomment Hrec].
  split; [exact Hrec|]. rewrite Hcomment. split.
  - now apply truthy_nonempty.
  - apply strip_idem.
Qed.

Lemma tables_loop_of_records (mxliff_data : list XMLParser.entry) (tables : list table) :
  forall st,
    Forall (update_of_record mxliff_data) (fst st) ->
    Forall (update_of_record mxliff_data)
      (fst (tables_loop (fold_left add_lookup mxliff_data []) tables st)).
Proof.
  induction tables as [|t rest IH]; intros st Hinv; [exact Hinv|].
  simpl.
  destruct (negb _ || negb _); [now apply IH|].
  destruct (find_column "source" _) as [s|]; [|now apply IH].
  destruct (find_column "comment" _) as [c|]; [|now apply IH].
  apply IH. now apply rows_loop_of_records.
Qed.

(** X12.  Every update of [match_content_with_mxliff] comes from a record
    and from a cell: its key is the key of a record of [mxliff_data] that
    is no header and whose cleaned source text has 10 characters or more;
    its source text is that cleaned text when the match is exact and the
    record's stripped source text when it is fuzzy; and its comment is not
    empty and has no white space around it. *)
Theorem updates_come_from_records
    (tables : list table) (mxliff_data : list XMLParser.entry) :
  Forall (update_of_record mxliff_data)
    (updates (match_content_with_mxliff tables mxliff_data)).
Proof.
  unfold match_content_with_mxliff.
  destruct mxliff_data as [|d ds]; [constructor|].
  destruct tables as [|t ts]; [constructor|].
  destruct (filter _ _) as [|t' ts']; [constructor|].
  pose proof (tables_loop_of_records (d :: ds) (t' :: ts') ([], 0) (Forall_nil _)) as H.
  destruct (tables_loop _ _ _) as [upd n]. exact H.
Qed.

Lemma rows_loop_grows mxliff_lookup source_col comments_col rws :
  forall st,
    snd (rows_loop mxliff_lookup source_col comments_col rws st)
    <= snd st + List.length rws.
Proof.
  induction rws as [|row rest IH]; intros [upd n]; [simpl; lia|].
  rewrite rows_loop_cons. simpl List.length.
  destruct (MAX_MATCHES <=? n); [simpl; lia|].
  destruct (negb _ || negb _); [specialize (IH (upd, n)); simpl in *; lia|].
  destruct (match_row _ _ _) as [u|].
  - specialize (IH (upd ++ [u], S n)). simpl in *. lia.
  - specialize (IH (upd, n)). simpl in *. lia.
Qed.

Lemma tables_loop_grows mxliff_lookup tables :
  forall st,
    snd (tables_loop mxliff_lookup tables st)
    <= snd st + list_sum (map (fun t => List.length (rows (dataframe t))) tables).
Proof.
  induction tables as [|t rest IH]; intros st; [simpl; lia|].
  simpl.
  destruct (negb _ || negb _); [specialize (IH st); lia|].
  destruct (find_column "source" _) as [s|]; [|specialize (IH st); lia].
  destruct (find_column "comment" _) as [c|]; [|specialize (IH st); lia].
  specialize (IH (rows_loop mxliff_lookup s c (rows (dataframe t)) st)).
  pose proof (rows_loop_grows mxliff_lookup s c (rows (dataframe t)) st). lia.
Qed.

Lemma list_sum_filter_le {A} (f : A -> nat) (p : A -> bool) (l : list A) :
  list_sum (map f (filter p l)) <= list_sum (map f l).
Proof.
  induction l as [|x l IH]; simpl; [lia|]. destruct (p x); simpl; lia.
Qed.

(** X13.  A row gives one update at most, and only the rows of the tables
    with a conversation column are read: the number of matches is at most
    the number of those rows. *)
Theorem matches_bounded_by_rows
    (tables : list table) (mxliff_data : list XMLParser.entry) :
  matches (match_content_with_mxliff tables mxliff_data) <= conversation_rows tables.
Proof.
  unfold match_content_with_mxliff, conversation_rows.
  destruct mxliff_data as [|d ds]; [simpl; lia|].
  destruct tables as [|t ts]; [simpl; lia|].
  set (conv := get_conversation_tables (t :: ts)).
  pose proof (list_sum_filter_le (fun t => List.length (rows (dataframe t)))
                (fun t => 0 <? List.length (rows (dataframe t))) conv) as Hfilter.
  destruct (filter _ conv) as [|t' ts'] eqn:E; [simpl; lia|].
  pose proof (tables_loop_grows (fold_left add_lookup (d :: ds) []) (t' :: ts') ([], 0))
    as H.
  destruct (tables_loop _ _ _) as [upd n]. simpl in *. lia.
Qed.

End MatcherLookup.

(** ** Keys: the main key *)

Section MainKey.

Import ItemUtils.

Lemma startswith_char (c x : N) (s : str) : startswith [c] (x :: s) = (c =? x)%N.
Proof. simpl. apply andb_true_r. Qed.

Lemma str_find_char (c : N) (s : str) :
  (~ In c s -> str_find [c] s = (-1)%Z)
  /\ (In c s ->
      exists pre post,
        s = pre ++ c :: post /\ ~ In c pre
        /\ str_find [c] s = Z.of_nat (List.length pre)).
Proof.
  induction s as [|x s [IHno IHyes]]; split;
    [intros _; reflexivity | intros [] | |].
  - intros Hno. cbn [str_find]. rewrite startswith_char.
    destruct (N.eqb_spec c x) as [-> | Hne]; [exfalso; apply Hno; now left|].
    rewrite IHno; [reflexivity|]. intros H. apply Hno. now right.
  - intros Hin. cbn [str_find]. rewrite startswith_char.
    destruct (N.eqb_spec c x) as [-> | Hne].
    + exists [], s. repeat split. intros [].
    + destruct Hin as [Heq | Hin]; [congruence|].
      destruct (IHyes Hin) as (pre & post & -> & Hpre & ->).
      exists (x :: pre), post. repeat split.
      * intros [H | H]; [congruence | contradiction].
      * destruct (Z.ltb_spec (Z.of_nat (List.length pre)) 0); [lia|].
        simpl List.length. lia.
Qed.

Lemma str_rfind_char (c : N) (s : str) :
  (~ In c s -> str_rfind [c] s = (-1)%Z)
  /\ (In c s ->
      exists pre post,
        s = pre ++ c :: post /\ ~ In c post
        /\ str_rfind [c] s = Z.of_nat (List.length pre)).
Proof.
  induction s as [|x s [IHno IHyes]]; split;
    [intros _; reflexivity | intros [] | |].
  - intros Hno. cbn [str_rfind]. rewrite startswith_char.
    rewrite IHno by (intros H; apply Hno; now right). cbn.
    destruct (N.eqb_spec c x) as [-> | Hne]; [exfalso; apply Hno; now left|reflexivity].
  - intros Hin. cbn [str_rfind]. rewrite startswith_char.
    destruct (in_dec N.eq_dec c s) as [Hs | Hs].
    + destruct (IHyes Hs) as (pre & post & -> & Hpost & ->).
      exists (x :: pre), post. repeat split; [exact Hpost|].
      destruct (Z.leb_spec 0 (Z.of_nat (List.length pre))); [|lia].
      simpl List.length. lia.
    + rewrite (IHno Hs). cbn.
      destruct Hin as [<- | Hin]; [|contradiction].
      rewrite N.eqb_refl. exists [], s. repeat split. exact Hs.
Qed.

Lemma upto_prefix (pre : str) (c : N) (post : str) :
  upto (pre ++ c :: post) (Z.of_nat (List.length pre)) = pre.
Proof.
  unfold upto. rewrite Nat2Z.id, firstn_app, Nat.sub_diag, firstn_all. simpl.
  apply app_nil_r.
Qed.

(** X14.  [extract_main_key] cuts the key at its first slash; without a
    slash, at its last dot; and without slash and dot it returns the key.
    So the main key is a prefix of the key that has no slash. *)
Theorem main_key_is_cut_at_first_slash_or_last_dot (full_key : str) :
  (In 47%N full_key ->
   ~ In 47%N (extract_main_key full_key)
   /\ exists rest, full_key = extract_main_key full_key ++ 47%N :: rest)
  /\ (~ In 47%N full_key -> In 46%N full_key ->
      exists rest,
        full_key = extract_main_key full_key ++ 46%N :: rest /\ ~ In 46%N rest)
  /\ (~ In 47%N full_key -> ~ In 46%N full_key ->
      extract_main_key full_key = full_key).
Proof.
  unfold extract_main_key. change (py "/") with [47%N]. change (py ".") with [46%N].
  destruct (str_find_char 47 full_key) as [Hslash_no Hslash_yes].
  destruct (str_rfind_char 46 full_key) as [Hdot_no Hdot_yes].
  split; [|split].
  - intros Hin. destruct (Hslash_yes Hin) as (pre & post & Heq & Hpre & Hfind).
    rewrite Hfind. clear Hslash_no Hslash_yes Hdot_no Hdot_yes Hfind Hin.
    subst full_key. rewrite upto_prefix.
    replace (truthy (pre ++ 47%N :: post)) with true by now destruct pre.
    cbn [negb]. destruct (Z.eqb_spec (Z.of_nat (List.length pre)) (-1)); [lia|].
    cbn [negb]. split; [exact Hpre | now exists post].
  - intros Hno Hin. rewrite (Hslash_no Hno). cbn [Z.eqb negb].
    destruct (Hdot_yes Hin) as (pre & post & Heq & Hpost & Hfind).
    rewrite Hfind. clear Hslash_no Hslash_yes Hdot_no Hdot_yes Hfind Hin Hno.
    subst full_key. rewrite upto_prefix.
    replace (truthy (pre ++ 46%N :: post)) with true by now destruct pre.
    cbn [negb]. destruct (Z.eqb_spec (Z.of_nat (List.length pre)) (-1)); [lia|].
    cbn [negb]. now exists post.
  - intros Hno Hno'. rewrite (Hslash_no Hno), (Hdot_no Hno'). cbn [Z.eqb negb].
    destruct full_key; reflexivity.
Qed.

End MainKey.

(** ** Items: the comments *)

Section Comments.

Import ItemUtils.

Lemma startswith_split (l s : str) :
  startswith l s = true -> exists post, s = l ++ post.
Proof.
  revert s. induction l as [|x l IH]; intros s H; [now exists s|].
  destruct s as [|y s]; [discriminate|]. simpl in H.
  apply andb_true_iff in H as [Hxy H]. apply N.eqb_eq in Hxy. subst y.
  destruct (IH s H) as [post ->]. now exists post.
Qed.

Lemma contains_split (l s : str) :
  contains l s = true -> exists pre post, s = pre ++ l ++ post.
Proof.
  induction s as [|y s IH]; simpl; intros H.
  - rewrite orb_false_r in H. destruct l; [|discriminate]. now exists [], [].
  - apply orb_true_iff in H as [H | H].
    + apply startswith_split in H as [post Hpost]. now exists [], post.
    + destruct (IH H) as (pre & post & ->). now exists (y :: pre), post.
Qed.

Lemma contains_trans (a b s : str) :
  contains a b = true -> contains b s = true -> contains a s = true.
Proof.
  intros Hab Hbs. apply contains_split in Hbs as (pre & post & ->).
  now apply contains_substring.
Qed.

Lemma run_lit (l : str) (s : str) (pos : nat) :
  Re.run (map Re.Chr l) s pos
  = if startswith l s then Some (pos + List.length l, []) else None.
Proof.
  revert s pos. induction l as [|x l IH]; intros s pos; simpl.
  - now rewrite Nat.add_0_r.
  - destruct s as [|y s]; [reflexivity|].
    rewrite (N.eqb_sym x y). destruct (y =? x)%N; [|reflexivity].
    rewrite IH. simpl. destruct (startswith l s); [|reflexivity].
    do 2 f_equal. lia.
Qed.

Lemma first_alternative_literals (ls : list str) (s : str) :
  (exists m, Re.first_alternative (map (map Re.Chr) ls) s = Some m)
  <-> existsb (fun l => startswith l s) ls = true.
Proof.
  induction ls as [|l ls IH]; simpl.
  - split; [intros [m H]; discriminate | discriminate].
  - rewrite run_lit. destruct (startswith l s); simpl.
    + split; eauto.
    + exact IH.
Qed.

Lemma search_alternatives_literals (ls : list str) (s : str) :
  (exists m, Re.search_alternatives (map (map Re.Chr) ls) s = Some m)
  <-> existsb (fun l => contains l s) ls = true.
Proof.
  induction s as [|y s IH].
  - cbn [Re.search_alternatives].
    assert (Hsame : existsb (fun l => contains l []) ls
                    = existsb (fun l => startswith l []) ls).
    { clear. induction ls as [|l ls IH]; [reflexivity|].
      cbn [existsb]. rewrite IH. f_equal. cbn [contains]. apply orb_false_r. }
    rewrite Hsame, <- first_alternative_literals.
    destruct (Re.first_alternative _ []); split; eauto.
  - cbn [Re.search_alternatives].
    assert (Hor : existsb (fun l => contains l (y :: s)) ls
                  = existsb (fun l => startswith l (y :: s)) ls
                    || existsb (fun l => contains l s) ls).
    { clear. induction ls as [|l ls IH]; [reflexivity|].
      cbn [existsb]. rewrite IH. cbn [contains].
      destruct (startswith l (y :: s)), (contains l s),
        (existsb (fun l0 => startswith l0 (y :: s)) ls); reflexivity. }
    rewrite Hor, orb_true_iff, <- IH, <- first_alternative_literals.
    destruct (Re.first_alternative _ (y :: s)) as [m|]; split; eauto.
    + intros [H | H]; [eauto | exact H].
      destruct H as [m H]. discriminate.
Qed.

(** X15.  An item has comments exactly when its note contains
    [Comment:]; the alternatives [Developer Comment:] and [CoT Comment:]
    of the pattern add nothing. *)
Theorem has_comments_iff_note_contains_comment (item : XMLParser.record) :
  has_comments item = contains (py "Comment:") (XMLParser.note_text item).
Proof.
  unfold has_comments.
  destruct (XMLParser.note_text item) as [|c note] eqn:E; [reflexivity|].
  cbn [truthy negb].
  pose proof (search_alternatives_literals
                [py "Developer Comment:"; py "Comment:"; py "CoT Comment:"] (c :: note))
    as Hiff.
  change (map (map Re.Chr) _) with comment_alternatives in Hiff.
  set (found := Re.search_alternatives comment_alternatives (c :: note)) in *.
  destruct (contains (py "Comment:") (c :: note)) eqn:Hc.
  - assert (H : exists m, found = Some m).
    { apply Hiff. cbn [existsb]. rewrite Hc. apply orb_true_r. }
    destruct H as [m ->]. reflexivity.
  - destruct found as [m|]; [|reflexivity].
    assert (H : existsb (fun l => contains l (c :: note))
                  [py "Developer Comment:"; py "Comment:"; py "CoT Comment:"] = true)
      by (apply Hiff; eauto).
    cbn [existsb] in H. rewrite Hc in H. cbn [orb] in H. rewrite orb_false_r in H.
    apply orb_true_iff in H as [H | H];
      eapply (contains_trans (py "Comment:")) in H; try congruence; reflexivity.
Qed.

End Comments.

(** ** Sorting by a key *)

Section SortKeyed.

Import ItemUtils.

Variables (K A : Type) (lt : K -> K -> bool).

Lemma insert_sorted_perm (x : K * A) (l : list (K * A)) :
  Permutation (insert_sorted lt x l) (x :: l).
Proof.
  induction l as [|y l IH]; simpl; [reflexivity|].
  destruct (lt (fst y) (fst x)); [|reflexivity].
  rewrite IH. apply perm_swap.
Qed.

Lemma sort_keyed_perm (l : list (K * A)) : Permutation (sort_keyed lt l) l.
Proof.
  induction l as [|x l IH]; simpl; [reflexivity|].
  rewrite insert_sorted_perm. now constructor.
Qed.

Hypothesis lt_asym : forall x y, lt x y = true -> lt y x = false.
Hypothesis le_trans :
  forall x y z, lt y x = false -> lt z y = false -> lt z x = false.

Lemma insert_sorted_sorted (x : K * A) (l : list (K * A)) :
  StronglySorted (fun a b => lt (fst b) (fst a) = false) l ->
  StronglySorted (fun a b => lt (fst b) (fst a) = false) (insert_sorted lt x l).
Proof.
  induction 1 as [|y l Hsorted IH Hall]; simpl; [repeat constructor|].
  destruct (lt (fst y) (fst x)) eqn:E.
  - constructor; [exact IH|].
    eapply Permutation_Forall; [symmetry; apply insert_sorted_perm|].
    constructor; [now apply lt_asym | exact Hall].
  - constructor; [now constructor|].
    constructor; [exact E|].
    eapply Forall_impl; [|exact Hall]. intros z Hz. eapply le_trans; eassumption.
Qed.

Lemma sort_keyed_sorted (l : list (K * A)) :
  StronglySorted (fun a b => lt (fst b) (fst a) = false) (sort_keyed lt l).
Proof.
  induction l as [|x l IH]; simpl; [constructor|]. now apply insert_sorted_sorted.
Qed.

End SortKeyed.

Lemma keyed_pairs {K A} (key : A -> outcome K) (l : list A) (kl : list (K * A)) :
  ItemUtils.keyed key l = Return kl ->
  map snd kl = l /\ Forall (fun p => key (snd p) = Return (fst p)) kl.
Proof.
  revert kl. induction l as [|x l IH]; intros kl; simpl.
  - intros [= <-]. split; [reflexivity | constructor].
  - destruct (key x) as [k|e] eqn:Hk; [|discriminate].
    destruct (ItemUtils.keyed key l) as [kl'|e]; [|discriminate].
    intros [= <-]. destruct (IH kl' eq_refl) as [Hmap Hall].
    split; [simpl; now rewrite Hmap | now constructor].
Qed.

Lemma StronglySorted_pair {X} (R : X -> X -> Prop) (pre mid post : list X) (a b : X) :
  StronglySorted R (pre ++ a :: mid ++ b :: post) -> R a b.
Proof.
  induction pre as [|x pre IH]; simpl; intros H.
  - apply StronglySorted_inv in H as [_ Hall].
    rewrite Forall_forall in Hall. apply Hall. apply in_or_app. right. now left.
  - apply StronglySorted_inv in H as [H _]. auto.
Qed.

Section NaturalOrder.
Context {rt : Runtime}.

Import ItemUtils.

Lemma list_lt_asym (a b : list Z) : list_lt a b = true -> list_lt b a = false.
Proof.
  revert b. induction a as [|x a IH]; intros [|y b]; simpl; try congruence.
  rewrite (Z.eqb_sym y x).
  destruct (Z.eqb_spec x y) as [-> | Hne]; [apply IH|].
  intros H. apply Z.ltb_lt in H. apply Z.ltb_ge. lia.
Qed.

Lemma list_le_trans (a b c : list Z) :
  list_lt b a = false -> list_lt c b = false -> list_lt c a = false.
Proof.
  revert b c. induction a as [|x a IH]; intros [|y b] [|z c]; simpl; try congruence.
  destruct (Z.eqb_spec y x) as [Hyx | Hyx]; destruct (Z.eqb_spec z y) as [Hzy | Hzy];
    destruct (Z.eqb_spec z x) as [Hzx | Hzx]; intros H1 H2;
    try (apply Z.ltb_ge in H1); try (apply Z.ltb_ge in H2); try (apply Z.ltb_ge);
    try lia; eapply IH; eassumption.
Qed.

Lemma sort_key_lt_asym (a b : bool * list Z) :
  sort_key_lt a b = true -> sort_key_lt b a = false.
Proof.
  destruct a as [[|] la], b as [[|] lb]; unfold sort_key_lt; simpl;
    try congruence; apply list_lt_asym.
Qed.

Lemma sort_key_le_trans (a b c : bool * list Z) :
  sort_key_lt b a = false -> sort_key_lt c b = false -> sort_key_lt c a = false.
Proof.
  destruct a as [[|] la], b as [[|] lb], c as [[|] lc]; unfold sort_key_lt; simpl;
    try congruence; apply list_le_trans.
Qed.

(** X16.  The keys sorted by [natural_sort_key] are the same keys in
    another order; their sort keys never decrease along the list; and a
    key that contains Main never comes after a key that does not. *)
Theorem main_keys_are_sorted_first (keys sorted_keys : list str) :
  sorted sort_key_lt natural_sort_key keys = Return sorted_keys ->
  Permutation keys sorted_keys
  /\ (exists sort_keys,
        Forall2 (fun k sk => natural_sort_key k = Return sk) sorted_keys sort_keys
        /\ StronglySorted (fun x y => sort_key_lt y x = false) sort_keys)
  /\ (forall pre a mid b post,
        sorted_keys = pre ++ a :: mid ++ b :: post ->
        contains (py "Main") b = true -> contains (py "Main") a = true).
Proof.
  unfold sorted. destruct (keyed natural_sort_key keys) as [kl|e] eqn:Hkeyed; [|discriminate].
  intros [= <-]. destruct (keyed_pairs _ _ _ Hkeyed) as [Hmap Hkeys].
  pose proof (sort_keyed_perm _ _ sort_key_lt kl) as Hperm.
  pose proof (sort_keyed_sorted _ _ sort_key_lt sort_key_lt_asym sort_key_le_trans kl)
    as Hsorted.
  assert (Hkeys' : Forall (fun p => natural_sort_key (snd p) = Return (fst p))
                     (sort_keyed sort_key_lt kl)).
  { eapply Permutation_Forall; [symmetry; exact Hperm | exact Hkeys]. }
  set (skl := sort_keyed sort_key_lt kl) in *.
  split; [|split].
  - rewrite <- Hmap. symmetry. now apply Permutation_map.
  - exists (map fst skl). split.
    + clear -Hkeys'. induction Hkeys' as [|p l Hp _ IH]; simpl; constructor; auto.
    + clear -Hsorted. induction Hsorted as [|p l _ IH Hall]; simpl; constructor; auto.
      rewrite Forall_map. exact Hall.
  - intros pre a mid b post Heq Hb.
    apply map_eq_app in Heq as (kpre & krest & Hskl & _ & Hrest).
    destruct krest as [|pa krest]; [discriminate|]. simpl in Hrest.
    injection Hrest as Ha Hrest.
    apply map_eq_app in Hrest as (kmid & krest' & -> & _ & Hrest).
    destruct krest' as [|pb kpost]; [discriminate|]. simpl in Hrest.
    injection Hrest as Hb' _.
    rewrite Hskl in Hsorted, Hkeys'.
    pose proof (StronglySorted_pair _ _ _ _ _ _ Hsorted) as Hle. simpl in Hle.
    rewrite Forall_forall in Hkeys'.
    assert (Hka : natural_sort_key (snd pa) = Return (fst pa)).
    { apply Hkeys'. apply in_or_app. right. now left. }
    assert (Hkb : natural_sort_key (snd pb) = Return (fst pb)).
    { apply Hkeys'. apply in_or_app. right. right. apply in_or_app. right. now left. }
    rewrite Ha in Hka. rewrite Hb' in Hkb. unfold natural_sort_key in Hka, Hkb.
    destruct (to_ints (Re.findall _ a)); [|discriminate].
    destruct (to_ints (Re.findall _ b)); [|discriminate].
    injection Hka as Hka. injection Hkb as Hkb.
    rewrite <- Hka, <- Hkb in Hle.
    change [77%N; 97%N; 105%N; 110%N] with (py "Main") in Hle. rewrite Hb in Hle.
    destruct (contains (py "Main") a); [reflexivity|].
    unfold sort_key_lt in Hle. simpl in Hle. discriminate.
Qed.

End NaturalOrder.

(** ** The display data of the main window *)

Section Grouping.

Import MainWindow Display.

Lemma dict_get_none {V} (d : dict V) (k : str) :
  dict_get d k = None -> ~ In k (map fst d).
Proof.
  induction d as [|[k' v'] d IH]; simpl; [tauto|].
  destruct (eqb k' k) eqn:E; [discriminate|].
  intros H [Heq | Hin]; [|now apply IH].
  apply eqb_neq in E. contradiction.
Qed.

Lemma dict_get_some {V} (d : dict V) (k : str) :
  In k (map fst d) -> exists v, dict_get d k = Some v.
Proof.
  destruct (dict_get d k) as [v|] eqn:E; [now exists v|].
  intros Hin. now apply dict_get_none in E.
Qed.

Lemma dict_set_absent {V} (d : dict V) (k : str) (v : V) :
  dict_get d k = None -> dict_set d k v = d ++ [(k, v)].
Proof.
  induction d as [|[k' v'] d IH]; simpl; [reflexivity|].
  destruct (eqb k' k); [discriminate|]. intros H. now rewrite IH.
Qed.

Lemma dict_set_twice {V} (d : dict V) (k : str) (v v' : V) :
  dict_set (dict_set d k v) k v' = dict_set d k v'.
Proof.
  induction d as [|[k0 v0] d IH]; simpl; [now rewrite eqb_refl|].
  destruct (eqb k0 k) eqn:E; simpl; rewrite E; [reflexivity | now rewrite IH].
Qed.

Lemma dict_set_keys {V} (d : dict V) (k : str) (v v' : V) :
  dict_get d k = Some v -> map fst (dict_set d k v') = map fst d.
Proof.
  induction d as [|[k0 v0] d IH]; simpl; [discriminate|].
  destruct (eqb k0 k); [reflexivity|]. intros H. simpl. now rewrite IH.
Qed.

Lemma dict_set_values {A} (d : dict (list A)) (k : str) (l : list A) (x : A) :
  dict_get d k = Some l ->
  Permutation (flat_map snd (dict_set d k (l ++ [x]))) (x :: flat_map snd d).
Proof.
  induction d as [|[k0 v0] d IH]; simpl; [discriminate|].
  destruct (eqb k0 k).
  - intros [= ->]. simpl. rewrite <- app_assoc. simpl.
    symmetry. apply Permutation_middle.
  - intros H. simpl. rewrite (IH H). symmetry. apply Permutation_middle.
Qed.

(** The two cases of the body of the grouping loop. *)
Lemma group_step_cases (grouped_data : dict (list XMLParser.record))
    (item : XMLParser.record) :
  group_step grouped_data item
  = match dict_get grouped_data (group_key item) with
    | None => grouped_data ++ [(group_key item, [item])]
    | Some l => dict_set grouped_data (group_key item) (l ++ [item])
    end.
Proof.
  unfold group_step. fold (group_key item). unfold dict_mem.
  destruct (dict_get grouped_data (group_key item)) as [l|] eqn:E; simpl negb; cbv iota.
  - rewrite E. reflexivity.
  - rewrite dict_get_set_same, dict_set_twice. simpl app. now apply dict_set_absent.
Qed.

Lemma group_step_grouped (records : list XMLParser.record)
    (grouped_data : dict (list XMLParser.record)) (item : XMLParser.record) :
  grouped records grouped_data ->
  grouped (records ++ [item]) (group_step grouped_data item).
Proof.
  intros (Hnodup & Hperm & Hall). rewrite group_step_cases.
  destruct (dict_get grouped_data (group_key item)) as [l|] eqn:E.
  - split; [|split].
    + now rewrite (dict_set_keys _ _ l).
    + rewrite (dict_set_values _ _ _ _ E). rewrite <- Hperm.
      symmetry. apply Permutation_cons_append.
    + apply Forall_forall. intros [k' v'] Hin.
      apply dict_set_in in Hin as [[-> ->] | Hin].
      * simpl. split; [now destruct l|].
        apply Forall_app. split; [|now repeat constructor].
        apply dict_get_in in E. rewrite Forall_forall in Hall.
        apply (Hall _ E).
      * rewrite Forall_forall in Hall. now apply Hall.
  - split; [|split].
    + rewrite map_app. simpl. eapply Permutation_NoDup; [apply Permutation_cons_append|].
      constructor; [now apply dict_get_none | exact Hnodup].
    + rewrite flat_map_app. simpl. now apply Permutation_app_tail.
    + apply Forall_app. split; [exact Hall|]. repeat constructor; simpl.
      discriminate.
Qed.

Lemma grouping_loop_grouped (rest records : list XMLParser.record)
    (grouped_data : dict (list XMLParser.record)) :
  grouped records grouped_data ->
  grouped (records ++ rest) (fold_left group_step rest grouped_data).
Proof.
  revert records grouped_data. induction rest as [|item rest IH]; intros records g Hg; simpl.
  - now rewrite app_nil_r.
  - change (item :: rest) with ([item] ++ rest). rewrite app_assoc.
    apply IH. now apply group_step_grouped.
Qed.

Lemma grouped_data_grouped (records : list XMLParser.record) :
  grouped records (fold_left group_step records []).
Proof.
  apply (grouping_loop_grouped records [] []).
  split; [constructor | split; [reflexivity | constructor]].
Qed.

Lemma group_of_other (k : str) (v : list XMLParser.record)
    (grouped_data : dict (list XMLParser.record)) (keys : list str) :
  ~ In k keys ->
  flat_map (group_of ((k, v) :: grouped_data)) keys = flat_map (group_of grouped_data) keys.
Proof.
  induction keys as [|k' keys IH]; simpl; [reflexivity|].
  intros Hnot. rewrite IH by tauto. f_equal.
  unfold group_of. simpl. destruct (eqb k k') eqn:E; [|reflexivity].
  apply eqb_eq in E. subst. tauto.
Qed.

Lemma group_of_keys (grouped_data : dict (list XMLParser.record)) :
  NoDup (map fst grouped_data) ->
  flat_map (group_of grouped_data) (map fst grouped_data) = flat_map snd grouped_data.
Proof.
  induction grouped_data as [|[k v] g IH]; simpl; [reflexivity|].
  intros Hnodup. apply NoDup_cons_iff in Hnodup as [Hnot Hnodup].
  rewrite group_of_other by exact Hnot. rewrite IH by exact Hnodup.
  unfold group_of at 1. simpl. now rewrite eqb_refl.
Qed.

Lemma grouped_keys (records : list XMLParser.record)
    (grouped_data : dict (list XMLParser.record)) (k : str) :
  grouped records grouped_data ->
  In k (map fst grouped_data) <-> exists r, In r records /\ group_key r = k.
Proof.
  intros (_ & Hperm & Hall). rewrite Forall_forall in Hall. split.
  - intros Hin. apply in_map_iff in Hin as ([k' v] & <- & Hin).
    destruct (Hall _ Hin) as [Hne Hkeys]. simpl in *.
    destruct v as [|r v]; [contradiction|]. exists r. split.
    + eapply Permutation_in; [symmetry; exact Hperm|].
      apply in_flat_map. exists (k', r :: v). split; [exact Hin | now left].
    + now apply Forall_inv in Hkeys.
  - intros (r & Hin & <-).
    eapply Permutation_in in Hin; [|exact Hperm].
    apply in_flat_map in Hin as ([k' v] & Hin & Hr). simpl in Hr.
    destruct (Hall _ Hin) as [_ Hkeys]. rewrite Forall_forall in Hkeys.
    rewrite (Hkeys _ Hr). simpl. apply in_map_iff. now exists (k', v).
Qed.

Lemma grouped_group (records : list XMLParser.record)
    (grouped_data : dict (list XMLParser.record)) (k : str) :
  grouped records grouped_data ->
  In k (map fst grouped_data) ->
  group_of grouped_data k <> []
  /\ Forall (fun r => group_key r = k) (group_of grouped_data k).
Proof.
  intros (_ & _ & Hall) Hin. rewrite Forall_forall in Hall.
  destruct (dict_get_some _ _ Hin) as [v Hv]. unfold group_of. rewrite Hv.
  apply dict_get_in in Hv. apply (Hall _ Hv).
Qed.

Lemma filter_perm {A} (f : A -> bool) (l l' : list A) :
  Permutation l l' -> Permutation (filter f l) (filter f l').
Proof.
  induction 1 as [|x l l' _ IH|x y l|l l' l'' _ IH1 _ IH2]; simpl.
  - reflexivity.
  - destruct (f x); [now constructor | exact IH].
  - destruct (f x), (f y); try reflexivity. apply perm_swap.
  - now rewrite IH1.
Qed.

Lemma filter_all {A} (f : A -> bool) (l : list A) :
  Forall (fun x => f x = true) l -> filter f l = l.
Proof. induction 1 as [|x l Hx _ IH]; simpl; [reflexivity | now rewrite Hx, IH]. Qed.

Lemma filter_none {A} (f : A -> bool) (l : list A) :
  Forall (fun x => f x = false) l -> filter f l = [].
Proof. induction 1 as [|x l Hx _ IH]; simpl; [reflexivity | now rewrite Hx, IH]. Qed.

(** The list of a key holds the records of this main key, all of them. *)
Lemma grouped_filter (records : list XMLParser.record)
    (grouped_data : dict (list XMLParser.record)) (k : str) :
  grouped records grouped_data ->
  Permutation (group_of grouped_data k)
    (filter (fun r => eqb (group_key r) k) records).
Proof.
  intros (Hnodup & Hperm & Hall).
  rewrite (filter_perm _ _ _ Hperm). clear Hperm.
  induction grouped_data as [|[k' v] g IH]; [reflexivity|].
  simpl in Hnodup. apply NoDup_cons_iff in Hnodup as [Hnot Hnodup].
  apply Forall_cons_iff in Hall as [[_ Hv] Hall]. simpl in Hv.
  cbn [flat_map snd]. rewrite filter_app. unfold group_of. simpl dict_get.
  destruct (eqb k' k) eqn:E.
  - apply eqb_eq in E. subst k'. rewrite filter_all.
    + rewrite filter_none; [now rewrite app_nil_r|].
      apply Forall_forall. intros r Hr. apply eqb_neq. intros Hkey.
      apply in_flat_map in Hr as ([k' v'] & Hin & Hr).
      rewrite Forall_forall in Hall. destruct (Hall _ Hin) as [_ Hv'].
      rewrite Forall_forall in Hv'. simpl in *.
      apply Hnot. apply in_map_iff. exists (k', v'). split; [|exact Hin].
      simpl. rewrite <- Hkey. symmetry. now apply Hv'.
    + eapply Forall_impl; [|exact Hv]. intros r Hr. now apply eqb_eq.
  - rewrite filter_none.
    + exact (IH Hnodup Hall).
    + eapply Forall_impl; [|exact Hv]. intros r Hr. apply eqb_neq.
      rewrite Hr. now apply eqb_neq.
Qed.

End Grouping.

Section ItemOrder.

Import ItemUtils.

Lemma order_index_lt_asym (a b : Z * nat) :
  order_index_lt a b = true -> order_index_lt b a = false.
Proof.
  destruct a as [a i], b as [b j]. unfold order_index_lt. simpl.
  rewrite (Z.eqb_sym b a). destruct (Z.eqb_spec a b) as [_ | Hne]; intros H.
  - apply Nat.ltb_lt in H. apply Nat.ltb_ge. lia.
  - apply Z.ltb_lt in H. apply Z.ltb_ge. lia.
Qed.

Lemma order_index_le_trans (a b c : Z * nat) :
  order_index_lt b a = false -> order_index_lt c b = false ->
  order_index_lt c a = false.
Proof.
  destruct a as [a i], b as [b j], c as [c k]. unfold order_index_lt. simpl.
  destruct (Z.eqb_spec b a), (Z.eqb_spec c b), (Z.eqb_spec c a); intros H1 H2;
    try (apply Nat.ltb_ge in H1); try (apply Z.ltb_ge in H1);
    try (apply Nat.ltb_ge in H2); try (apply Z.ltb_ge in H2);
    try (apply Nat.ltb_ge); try (apply Z.ltb_ge); lia.
Qed.

Lemma sorted_perm {K A} (lt : K -> K -> bool) (key : A -> outcome K) (l l' : list A) :
  sorted lt key l = Return l' -> Permutation l l'.
Proof.
  unfold sorted. destruct (keyed key l) as [kl|e] eqn:Hkeyed; [|discriminate].
  intros [= <-]. destruct (keyed_pairs _ _ _ Hkeyed) as [Hmap _].
  rewrite <- Hmap. symmetry. apply Permutation_map. apply sort_keyed_perm.
Qed.

Lemma sort_items_perm (items : list XMLParser.record) :
  Permutation (MainWindow.sort_items items) items.
Proof.
  unfold MainWindow.sort_items.
  rewrite (Permutation_map snd (sort_keyed_perm _ _ order_index_lt _)).
  rewrite map_map. simpl. now rewrite map_id.
Qed.

Lemma sort_items_sorted (items : list XMLParser.record) :
  StronglySorted Display.order_le (MainWindow.sort_items items).
Proof.
  unfold MainWindow.sort_items.
  set (kl := map (fun x => ((XMLParser.order_value x, XMLParser.index x), x)) items).
  pose proof (sort_keyed_sorted _ _ order_index_lt order_index_lt_asym
                order_index_le_trans kl) as Hsorted.
  assert (Hkeys : Forall (fun p => fst p = (XMLParser.order_value (snd p),
                                            XMLParser.index (snd p)))
                    (sort_keyed order_index_lt kl)).
  { eapply Permutation_Forall; [symmetry; apply sort_keyed_perm|].
    unfold kl. apply Forall_forall. intros p Hp.
    apply in_map_iff in Hp as (x & <- & _). reflexivity. }
  induction Hsorted as [|p l _ IH Hall]; simpl; constructor.
  - apply IH. now apply Forall_inv_tail in Hkeys.
  - apply Forall_inv in Hkeys as Hp. apply Forall_inv_tail in Hkeys.
    rewrite Forall_map. rewrite Forall_forall in Hall, Hkeys |- *.
    intros p' Hp'. unfold Display.order_le.
    rewrite <- Hp, <- (Hkeys _ Hp'). now apply Hall.
Qed.

End ItemOrder.

Section DisplayData.
Context {rt : Runtime}.

Import MainWindow Display.

Lemma records_of_app (a b : list display_item) :
  records_of (a ++ b) = records_of a ++ records_of b.
Proof. unfold records_of. now rewrite filter_app, map_app. Qed.

Lemma records_of_missing (item : XMLParser.record) (lines : list Z) :
  records_of (map (missing_line_item item) lines) = [].
Proof. induction lines as [|n lines IH]; [reflexivity | exact IH]. Qed.

(** The loop that fills the missing lines keeps the items of the group,
    in their order. *)
Lemma ordered_items_records (group_items : list XMLParser.record) (expected : Z)
    (ordered : list display_item) :
  ordered_items group_items expected = Return ordered ->
  records_of ordered = group_items.
Proof.
  revert expected ordered.
  induction group_items as [|item rest IH]; intros expected ordered; simpl.
  - intros [= <-]. reflexivity.
  - destruct (ItemUtils.extract_line_number item) as [n|e]; [|discriminate].
    destruct (ordered_items rest (n + 1)) as [following|e] eqn:Hrest; [|discriminate].
    intros [= <-]. rewrite records_of_app, records_of_missing. simpl.
    change (records_of (present item :: following)) with (item :: records_of following).
    f_equal. exact (IH _ _ Hrest).
Qed.

Lemma items_of_group_rows (main_key : str) (ordered : list display_item)
    (following : list display_row) :
  items_of (group_rows main_key ordered ++ following) = ordered ++ items_of following.
Proof.
  unfold group_rows. simpl. unfold items_of at 1. rewrite flat_map_app.
  f_equal. induction ordered as [|it ordered IH]; simpl; [reflexivity | now rewrite IH].
Qed.

Lemma header_keys_group_rows (main_key : str) (ordered : list display_item)
    (following : list display_row) :
  header_keys (group_rows main_key ordered ++ following)
  = main_key :: header_keys following.
Proof.
  unfold group_rows. simpl. f_equal. unfold header_keys at 1. rewrite flat_map_app.
  replace (flat_map _ (map Row ordered)) with (@nil str); [reflexivity|].
  induction ordered as [|it ordered IH]; simpl; [reflexivity | exact IH].
Qed.

(** The loop over the sorted keys gives one block for each key: the
    header of the key and the rows of its group. *)
Lemma display_groups_blocks (grouped_data : dict (list XMLParser.record))
    (sorted_keys : list str) (display : list display_row) :
  display_groups grouped_data sorted_keys = Return display ->
  exists blocks : list (str * list display_item),
    display = flat_map (fun b => group_rows (fst b) (snd b)) blocks
    /\ map fst blocks = sorted_keys
    /\ Forall (fun b => ordered_items (sort_items (group_of grouped_data (fst b))) 1
                        = Return (snd b)) blocks.
Proof.
  revert display. induction sorted_keys as [|k keys IH]; intros display; simpl.
  - intros [= <-]. exists []. repeat split. constructor.
  - fold (group_of grouped_data k).
    destruct (ordered_items (sort_items (group_of grouped_data k)) 1)
      as [ordered|e] eqn:Hordered; [|discriminate].
    destruct (display_groups grouped_data keys) as [following|e]; [|discriminate].
    intros [= <-]. destruct (IH _ eq_refl) as (blocks & -> & <- & Hall).
    exists ((k, ordered) :: blocks). repeat split. now constructor.
Qed.

Lemma blocks_items (blocks : list (str * list display_item)) :
  items_of (flat_map (fun b => group_rows (fst b) (snd b)) blocks)
  = flat_map snd blocks.
Proof.
  induction blocks as [|[k its] blocks IH]; [reflexivity|].
  cbn [flat_map fst snd]. rewrite items_of_group_rows. now rewrite IH.
Qed.

Lemma blocks_header_keys (blocks : list (str * list display_item)) :
  header_keys (flat_map (fun b => group_rows (fst b) (snd b)) blocks)
  = map fst blocks.
Proof.
  induction blocks as [|[k its] blocks IH]; [reflexivity|].
  cbn [flat_map fst snd map]. rewrite header_keys_group_rows. now rewrite IH.
Qed.

Lemma blocks_records (grouped_data : dict (list XMLParser.record))
    (blocks : list (str * list display_item)) :
  Forall (fun b => ordered_items (sort_items (group_of grouped_data (fst b))) 1
                   = Return (snd b)) blocks ->
  Permutation (records_of (flat_map snd blocks))
    (flat_map (group_of grouped_data) (map fst blocks)).
Proof.
  induction 1 as [|[k its] blocks Hb _ IH]; [reflexivity|].
  cbn [flat_map map fst snd] in *. rewrite records_of_app.
  rewrite (ordered_items_records _ _ _ Hb).
  apply Permutation_app; [apply sort_items_perm | exact IH].
Qed.

(** The parts of [display_data]. *)
Lemma display_data_blocks (records : list XMLParser.record)
    (display : list display_row) :
  display_data records = Return display ->
  exists (grouped_data : dict (list XMLParser.record))
         (blocks : list (str * list display_item)),
    grouped records grouped_data
    /\ Permutation (map fst grouped_data) (map fst blocks)
    /\ display = flat_map (fun b => group_rows (fst b) (snd b)) blocks
    /\ Forall (fun b => ordered_items (sort_items (group_of grouped_data (fst b))) 1
                        = Return (snd b)) blocks.
Proof.
  unfold display_data.
  destruct (ItemUtils.sorted _ _ _) as [sorted_keys|e] eqn:Hsorted; [|discriminate].
  intros Hdisplay. apply display_groups_blocks in Hdisplay as (blocks & -> & <- & Hall).
  exists (fold_left group_step records []), blocks.
  split; [apply grouped_data_grouped|]. split; [|split; [reflexivity | exact Hall]].
  exact (sorted_perm _ _ _ _ Hsorted).
Qed.

(** X17.  The display list holds the records of the extraction, each
    one once: without the placeholders of missing lines, the items of
    its rows are the records in another order. *)
Theorem display_data_keeps_the_records (records : list XMLParser.record)
    (display : list display_row) :
  display_data records = Return display ->
  Permutation records (records_of (items_of display)).
Proof.
  intros Hdisplay.
  destruct (display_data_blocks _ _ Hdisplay) as (g & blocks & Hg & Hkeys & -> & Hall).
  rewrite blocks_items, (blocks_records g blocks Hall).
  rewrite <- (Permutation_flat_map (group_of g) Hkeys).
  destruct Hg as (Hnodup & Hperm & _). now rewrite group_of_keys.
Qed.

(** X18.  The display list is a sequence of blocks, one for each main
    key of the records: a header with the key and the number of rows of
    the block, then these rows.  No two headers have the same key; the
    records of a block are all the records of its main key
    (UngroupedContent for a key without a main key), there is at least
    one, and they are in the order of their order values and then of
    their indices. *)
Theorem display_data_is_grouped (records : list XMLParser.record)
    (display : list display_row) :
  display_data records = Return display ->
  exists blocks : list (str * list display_item),
    display = flat_map (fun b => group_rows (fst b) (snd b)) blocks
    /\ NoDup (map fst blocks)
    /\ (forall k, In k (map fst blocks) <-> exists r, In r records /\ group_key r = k)
    /\ Forall (fun b =>
                 Permutation (records_of (snd b))
                   (filter (fun r => eqb (group_key r) (fst b)) records)
                 /\ records_of (snd b) <> []
                 /\ StronglySorted order_le (records_of (snd b))) blocks.
Proof.
  intros Hdisplay.
  destruct (display_data_blocks _ _ Hdisplay) as (g & blocks & Hg & Hkeys & -> & Hall).
  exists blocks. split; [reflexivity|]. split; [|split].
  - eapply Permutation_NoDup; [exact Hkeys | apply Hg].
  - intros k. rewrite <- (grouped_keys records g k Hg). split; intros Hin.
    + eapply Permutation_in; [symmetry; exact Hkeys | exact Hin].
    + eapply Permutation_in; [exact Hkeys | exact Hin].
  - apply Forall_forall. intros b Hb. rewrite Forall_forall in Hall.
    rewrite (ordered_items_records _ _ _ (Hall b Hb)).
    assert (Hin : In (fst b) (map fst g)).
    { eapply Permutation_in; [symmetry; exact Hkeys | now apply in_map]. }
    destruct (grouped_group records g (fst b) Hg Hin) as [Hne Hsame].
    split; [|split].
    + rewrite sort_items_perm. now apply grouped_filter.
    + intros Hnil. apply Hne. apply Permutation_nil.
      rewrite <- Hnil. apply sort_items_perm.
    + apply sort_items_sorted.
Qed.

Lemma upfrom_length (lo : Z) (n : nat) : List.length (upfrom lo n) = n.
Proof. revert lo. induction n as [|n IH]; intros lo; simpl; [reflexivity | now rewrite IH]. Qed.

Lemma upfrom_app (lo : Z) (a b : nat) :
  upfrom lo (a + b) = upfrom lo a ++ upfrom (lo + Z.of_nat a) b.
Proof.
  revert lo. induction a as [|a IH]; intros lo.
  - simpl. now rewrite Z.add_0_r.
  - cbn [Nat.add upfrom app]. rewrite IH. do 3 f_equal. lia.
Qed.

Lemma missing_lines_numbered (item : XMLParser.record) (lines : list Z) :
  Forall2 (fun it n => row_line it = Return n) (map (missing_line_item item) lines) lines.
Proof. induction lines as [|n lines IH]; simpl; constructor; [reflexivity | exact IH]. Qed.

Lemma last_cons {A} (l : list A) (x d : A) : last (x :: l) d = last l x.
Proof.
  revert x d. induction l as [|y l IH]; intros x d; [reflexivity|].
  change (last (x :: y :: l) d) with (last (y :: l) d).
  now rewrite (IH y d), (IH y x).
Qed.

Lemma increasing_last (lines : list Z) (expected d : Z) :
  increasing_from expected lines -> (d < expected)%Z -> (d <= last lines d)%Z.
Proof.
  revert expected d. induction lines as [|n rest IH]; intros expected d.
  - intros _ _. apply Z.le_refl.
  - intros [Hle Hrest] Hd. rewrite last_cons.
    specialize (IH (n + 1)%Z n Hrest). lia.
Qed.

(** X19.  The rows of a group whose items have increasing line numbers:
    the loop returns, its rows stand for the lines from the first
    expected one to the last line of the group without a gap, every line
    that has no item has one placeholder, and the items are kept in their
    order. *)
Theorem missing_lines_are_filled (group_items : list XMLParser.record)
    (lines : list Z) (expected : Z) :
  Forall2 (fun item n => ItemUtils.extract_line_number item = Return n)
    group_items lines ->
  increasing_from expected lines ->
  exists ordered,
    ordered_items group_items expected = Return ordered
    /\ Forall2 (fun it n => row_line it = Return n) ordered
         (upfrom expected (List.length ordered))
    /\ List.length ordered = Z.to_nat (last lines (expected - 1)%Z + 1 - expected)
    /\ records_of ordered = group_items.
Proof.
  intros Hlines. revert expected.
  induction Hlines as [|item n rest lines Hn _ IH]; intros expected Hinc.
  - exists []. simpl. repeat split; [constructor | f_equal; lia].
  - destruct Hinc as [Hle Hinc].
    destruct (IH _ Hinc) as (following & Hrest & Hrows & Hlen & Hrecords).
    simpl ordered_items. rewrite Hn, Hrest. eexists. split; [reflexivity|].
    pose proof (increasing_last lines (n + 1) n Hinc ltac:(lia)) as Hlast.
    replace (n + 1 - 1)%Z with n in Hlen by lia.
    split; [|split].
    + rewrite length_app, length_map, upfrom_length. cbn [List.length].
      rewrite upfrom_app. apply Forall2_app; [apply missing_lines_numbered|].
      cbn [upfrom]. replace (expected + Z.of_nat (Z.to_nat (n - expected)))%Z with n by lia.
      constructor; [exact Hn | exact Hrows].
    + rewrite length_app, length_map, upfrom_length. cbn [List.length].
      rewrite last_cons, Hlen. lia.
    + rewrite records_of_app, records_of_missing. simpl.
      change (records_of (present item :: following)) with (item :: records_of following).
      now rewrite Hrecords.
Qed.

(** X20.  Loading a file and saving it at once: when the display list
    of a text has no placeholder of a missing line, patching the text
    with this list gives the text back. *)
Theorem saving_the_display_data_keeps_the_file (xml_content : str)
    (display : list display_row) :
  xml_content <> [] ->
  parse_xml xml_content = Return display ->
  display <> [] ->
  forallb (fun it => negb (is_missing_line it)) (items_of display) = true ->
  XMLParser.update_xml_content xml_content (map to_entry display) = Return xml_content.
Proof.
  intros Hxml Hdisplay Hne Hpresent. unfold parse_xml in Hdisplay.
  assert (Hrecords : forall it, In it (items_of display) ->
                                In (fields it) (XMLParser.parse_xml xml_content)).
  { intros it Hin.
    destruct (display_data_blocks _ _ Hdisplay) as (g & blocks & Hg & Hkeys & -> & Hall).
    destruct Hg as (Hnodup & Hperm & _).
    eapply Permutation_in; [symmetry; exact Hperm|].
    rewrite <- group_of_keys by exact Hnodup.
    eapply Permutation_in; [symmetry; apply (Permutation_flat_map _ Hkeys)|].
    eapply Permutation_in; [apply (blocks_records g blocks Hall)|].
    rewrite blocks_items in Hin, Hpresent. unfold records_of.
    apply in_map. apply filter_In. split; [exact Hin|].
    rewrite forallb_forall in Hpresent. now apply Hpresent. }
  assert (Hsame : forall d it, In d (map to_entry display) -> XMLParser.item d = Some it ->
                               XMLParser.target_text it = XMLParser.original_target_text it).
  { intros d it Hd Hit. apply in_map_iff in Hd as (row & <- & Hrow).
    destruct row as [k n a b | di]; simpl in Hit; [discriminate|].
    injection Hit as <-.
    assert (Hin : In di (items_of display)).
    { apply in_flat_map. exists (Row di). split; [exact Hrow | now left]. }
    destruct (parse_xml_records xml_content _ (Hrecords di Hin))
      as (grp & tu & _ & _ & Hrec).
    symmetry. apply (record_of_fields grp tu _ Hrec). }
  unfold XMLParser.update_xml_content.
  destruct xml_content as [|c xml]; [contradiction|]. simpl negb. cbv iota.
  destruct display as [|row rows]; [contradiction|].
  pose proof (collect_unchanged (map to_entry (row :: rows)) Hsame ([], [])) as Hsnd.
  simpl map in Hsnd |- *.
  destruct (fold_left XMLParser.collect (to_entry row :: map to_entry rows) ([], []))
    as [ktt edited].
  simpl in Hsnd. subst edited. reflexivity.
Qed.

End DisplayData.

(** ** The properties on examples *)

Section PropertyExamples.

Import Example.
#[local] Existing Instance cpython.

(** Patching with the records of the extraction (X4) on the group of two
    lines. *)
Lemma patch_of_extracted_records_witness :
  XMLParser.update_xml_content dialogue_lines_1_2
    (display_data (XMLParser.parse_xml dialogue_lines_1_2))
  = Return dialogue_lines_1_2.
Proof.
  apply patch_of_extracted_records_is_identity.
  - vm_compute. discriminate.
  - discriminate.
  - intros d it Hin Hit. unfold display_data in Hin.
    destruct Hin as [<- | Hin]; [discriminate|].
    apply in_map_iff in Hin as (r & <- & Hr). injection Hit as <-. exact Hr.
Defined.

(** An edit and a text without a trans-unit (X5). *)
Lemma patch_without_trans_units_witness :
  XMLParser.update_xml_content (py "<xliff><file></file></xliff>")
    (display_data [with_target (py "Salut") (item_of (py "K1") (py "Hello"))])
  = Return (py "<xliff><file></file></xliff>").
Proof.
  apply patch_without_trans_units_is_identity.
  - vm_compute. discriminate.
  - discriminate.
  - vm_compute. reflexivity.
  - vm_compute. reflexivity.
Defined.

(** A source text of two characters (X10). *)
Lemma short_source_witness :
  DocumentParser.match_row (fold_left DocumentParser.add_lookup traveller_data [])
    (py "Hi") (py "a comment")
  = None.
Proof.
  apply short_source_never_matches. vm_compute. lia.
Defined.


(** Three main keys and their order (X16). *)
Lemma main_keys_sorted_witness :
  Permutation quest_keys sorted_quest_keys
  /\ (exists sort_keys,
        Forall2 (fun k sk => ItemUtils.natural_sort_key k = Return sk)
          sorted_quest_keys sort_keys
        /\ StronglySorted (fun x y => ItemUtils.sort_key_lt y x = false) sort_keys)
  /\ (forall pre a mid b post,
        sorted_quest_keys = pre ++ a :: mid ++ b :: post ->
        contains (py "Main") b = true -> contains (py "Main") a = true).
Proof.
  apply main_keys_are_sorted_first. vm_compute. reflexivity.
Defined.

(** The records of the group with the lines 1, 2 and 4 in its display
    list (X17). *)
Lemma display_data_keeps_the_records_witness :
  Permutation (XMLParser.parse_xml dialogue_lines_1_2_4)
    (Display.records_of (Display.items_of (display_of dialogue_lines_1_2_4))).
Proof.
  apply display_data_keeps_the_records. vm_compute. reflexivity.
Defined.

(** The blocks of the display list of the three quests (X18). *)
Lemma display_data_is_grouped_witness :
  exists blocks : list (str * list MainWindow.display_item),
    display_of three_quests
    = flat_map (fun b => MainWindow.group_rows (fst b) (snd b)) blocks
    /\ NoDup (map fst blocks)
    /\ (forall k, In k (map fst blocks)
                  <-> exists r, In r (XMLParser.parse_xml three_quests)
                                /\ Display.group_key r = k)
    /\ Forall (fun b =>
                 Permutation (Display.records_of (snd b))
                   (filter (fun r => eqb (Display.group_key r) (fst b))
                      (XMLParser.parse_xml three_quests))
                 /\ Display.records_of (snd b) <> []
                 /\ StronglySorted Display.order_le (Display.records_of (snd b))) blocks.
Proof.
  apply display_data_is_grouped. vm_compute. reflexivity.
Defined.

(** The lines 1, 2 and 4: four rows, the third one a placeholder
    (X19). *)
Lemma missing_lines_witness :
  exists ordered,
    MainWindow.ordered_items items_1_2_4 1 = Return ordered
    /\ Forall2 (fun it n => Display.row_line it = Return n) ordered
         (MainWindow.upfrom 1 (List.length ordered))
    /\ List.length ordered = 4
    /\ Display.records_of ordered = items_1_2_4.
Proof.
  apply (missing_lines_are_filled items_1_2_4 [1; 2; 4]%Z 1%Z).
  - repeat (constructor; [vm_compute; reflexivity|]). constructor.
  - simpl. lia.
Defined.

(** Loading and saving the group of two lines (X20). *)
Lemma saving_the_display_data_witness :
  XMLParser.update_xml_content dialogue_lines_1_2
    (map MainWindow.to_entry (display_of dialogue_lines_1_2))
  = Return dialogue_lines_1_2.
Proof.
  apply saving_the_display_data_keeps_the_file.
  - vm_compute. discriminate.
  - vm_compute. reflexivity.
  - vm_compute. discriminate.
  - vm_compute. reflexivity.
Defined.

(** The condition of X20 on the placeholders is needed.  In the document
    of two groups, the keys are in the contexts of the groups and the
    line 1 is missing: the placeholders count as edits, the second
    approach of the patcher finds the ids 1 and 2 of the trans-units in
    their keys, and saving the display list as it is writes the text of
    the placeholders in the two targets. *)
Example saving_placeholders_overwrites_the_targets :
  XMLParser.update_xml_content (two_groups "Bonjour" "Bonjour")
    (map MainWindow.to_entry (display_of (two_groups "Bonjour" "Bonjour")))
  = Return (two_groups "[MISSING LINE]" "[MISSING LINE]").
Proof. vm_compute. reflexivity. Qed.

End PropertyExamples.
